(** * Verification of the MDT batch and chunked-processing engine

    Shallow embedding of
    - [mdt/data/components/standard/processing_strategies/VoxelRange.py]
      (chunk generator, per-chunk dispatch, merge),
    - [mdt/batch_utils.py] (cascade name resolution, subject selection,
      the memoized discovery of [SimpleBatchProfile], profile resolution,
      output directory naming, collecting outputs).

    Python integers are [Z]; file system paths are lists of path
    components; Python exceptions are the [None] outcome of small
    state-and-error monads. *)

From Stdlib Require Import ZArith Lia Ascii.
From stdpp Require Import base list gmap strings pretty.

(* ================================================================== *)
(** ** Definitions *)
(* ================================================================== *)

Module VoxelRange.
Local Open Scope Z_scope.

(** A path as the list of its components: [os.path.join(p, c)] is [p ++ [c]]. *)
Definition path := list string.

(** [np.count_nonzero(mask)] over the flattened mask. *)
Definition count_nonzero (mask : list bool) : Z :=
  Z.of_nat (length (List.filter (fun b : bool => b) mask)).

(** Python's [range(start, stop, step)]; [None] is the [ValueError] of a
    zero step. *)
Definition py_range (start stop step : Z) : option (list Z) :=
  if Z.eqb step 0 then None
  else
    let n := if Z.ltb 0 step
             then (stop - start + step - 1) / step
             else (start - stop - step - 1) / (- step) in
    Some (map (fun i : nat => start + Z.of_nat i * step) (seq 0%nat (Z.to_nat n))).

(** [VoxelRange._chunks_generator]: the list of [(ind_start, ind_end)]
    pairs the generator yields. *)
Definition _chunks_generator (nmr_voxels : Z) (mask : list bool)
    : option (list (Z * Z)) :=
  let total_nmr_voxels := count_nonzero mask in
  match py_range 0 total_nmr_voxels nmr_voxels with
  | None => None
  | Some starts =>
      Some (map (fun ind_start =>
                   (ind_start, Z.min total_nmr_voxels (ind_start + nmr_voxels)))
                starts)
  end.

(** *** File system and the run of the strategy *)

(** The file system as the list of existing paths (files and directories;
    a directory is listed itself). *)
Definition fs_t := list path.

Fixpoint is_prefix (p q : path) : bool :=
  match p, q with
  | [], _ => true
  | a :: p', b :: q' => bool_decide (a = b) && is_prefix p' q'
  | _ :: _, [] => false
  end.

(** The non-empty prefixes of a path: the directories [os.makedirs]
    creates on the way to it, and the path itself. *)
Definition ancestors (p : path) : list path :=
  map (fun k => take k p) (seq 1 (length p)).

Inductive event :=
  | EvProcess (slice_dir : path)
  | EvCombine.

Record state := mkState { st_fs : fs_t; st_log : list event }.

(** State and exceptions: [None] is a raised exception, the state is the
    one at the raise. *)
Definition M (A : Type) := state -> option A * state.

Definition ret {A} (a : A) : M A := fun st => (Some a, st).
Definition bind {A B} (m : M A) (k : A -> M B) : M B :=
  fun st => match m st with
            | (Some a, st') => k a st'
            | (None, st') => (None, st')
            end.
Definition raise {A} : M A := fun st => (None, st).

Notation "x <- m ;; k" := (bind m (fun x => k))
  (at level 100, m at next level, right associativity).
Notation "m ;;; k" := (bind m (fun _ => k))
  (at level 100, right associativity).

Definition modify_fs (f : fs_t -> fs_t) : M unit :=
  fun st => (Some tt, mkState (f (st_fs st)) (st_log st)).
Definition log_event (e : event) : M unit :=
  fun st => (Some tt, mkState (st_fs st) (st_log st ++ [e])).

(** [os.path.exists]. *)
Definition os_path_exists (p : path) : M bool :=
  fun st => (Some (bool_decide (p ∈ st_fs st)), st).

(** [os.makedirs]: [FileExistsError] when the path exists. *)
Definition os_makedirs (p : path) : M unit :=
  e <- os_path_exists p ;;
  if e then raise else modify_fs (fun fs => ancestors p ++ fs).

(** [shutil.rmtree]: [FileNotFoundError] when the path does not exist. *)
Definition rmtree_fs (p : path) (fs : fs_t) : fs_t :=
  List.filter (fun q => negb (is_prefix p q)) fs.
Definition shutil_rmtree (p : path) : M unit :=
  e <- os_path_exists p ;;
  if e then modify_fs (rmtree_fs p) else raise.

(** [Nifti.write_volume_maps({'__mask': m}, d, header)]: writes the file
    [d/__mask.nii.gz], creating [d] when needed. *)
Definition write_mask_volume (slice_dir : path) : M unit :=
  modify_fs (fun fs => ancestors (slice_dir ++ ["__mask.nii.gz"]) ++ fs).

(** The worker (fitting engine) of a run, for its fixed model and
    problem data: [process] answers whether it returned normally (or
    raised) and the file system it leaves; [combine] its result ([None]:
    raised) and the file system it leaves. *)
Record Worker (R : Type) := {
  output_exists : fs_t -> path -> bool;
  process : fs_t -> list bool -> path -> bool * fs_t;
  combine : fs_t -> path -> path -> option R * fs_t
}.
Arguments output_exists {R}.
Arguments process {R}.
Arguments combine {R}.

Definition worker_output_exists {R} (w : Worker R) (d : path) : M bool :=
  fun st => (Some (output_exists w (st_fs st) d), st).

Definition worker_process {R} (w : Worker R) (m : list bool) (d : path) : M unit :=
  fun st => let '(ok, fs') := process w (st_fs st) m d in
            (if ok then Some tt else None, mkState fs' (st_log st)).

Definition worker_combine {R} (w : Worker R) (output_path chunks_dir : path) : M R :=
  fun st => let '(r, fs') := combine w (st_fs st) output_path chunks_dir in
            (r, mkState fs' (st_log st)).

(** ['{start}_{end}'.format(start=ind_start, end=ind_end)]. *)
Definition chunk_dir_name (ind_start ind_end : Z) : string :=
  pretty ind_start +:+ "_" +:+ pretty ind_end.

(** Modelled from the spec: [create_roi] and [restore_volumes] of
    [mdt.utils] (section 4.6, step 3): the chunk mask, in full volume
    shape, selects exactly the active voxels whose position in the
    active-voxel order lies in [ind_start, ind_end). *)
Fixpoint chunk_mask_go (mask : list bool) (k ind_start ind_end : Z) : list bool :=
  match mask with
  | [] => []
  | b :: m =>
      if b then bool_decide (ind_start <= k < ind_end)
                :: chunk_mask_go m (k + 1) ind_start ind_end
      else false :: chunk_mask_go m k ind_start ind_end
  end.
Definition chunk_mask (mask : list bool) (ind_start ind_end : Z) : list bool :=
  chunk_mask_go mask 0 ind_start ind_end.

(** [np.arange(0, n)] and the slice [indices[a:b]] for [0 <= a]. *)
Definition arange (n : Z) : list Z := map Z.of_nat (seq 0 (Z.to_nat n)).
Definition py_slice {A} (l : list A) (a b : Z) : list A :=
  take (Z.to_nat (b - a)) (drop (Z.to_nat a) l).

(** Modelled from the spec: [ModelChunksProcessingStrategy._prepare_chunk_dir]
    of [mdt.utils] (section 4.6, step 1): with [recalculate] an existing
    chunks directory is destroyed; the directory is created when absent. *)
Definition _prepare_chunk_dir (chunks_dir : path) (recalculate : bool) : M unit :=
  (if recalculate
   then e <- os_path_exists chunks_dir ;;
        if e then shutil_rmtree chunks_dir else ret tt
   else ret tt) ;;;
  e <- os_path_exists chunks_dir ;;
  if e then ret tt else os_makedirs chunks_dir.

(** [VoxelRange._run_on_slice] (the log message of a skipped chunk is
    not modelled). *)
Definition _run_on_slice {R} (w : Worker R) (slices_dir : path) (recalculate : bool)
    (ind_start ind_end : Z) (tmp_mask : list bool) : M unit :=
  let slice_dir := slices_dir ++ [chunk_dir_name ind_start ind_end] in
  (if recalculate
   then e <- os_path_exists slice_dir ;;
        if e then shutil_rmtree slice_dir else ret tt
   else ret tt) ;;;
  ex <- worker_output_exists w slice_dir ;;
  if ex then ret tt
  else log_event (EvProcess slice_dir) ;;;
       worker_process w tmp_mask slice_dir ;;;
       write_mask_volume slice_dir.

(** The body of the [for] loop of [VoxelRange.run]; the context manager
    [_selected_indices] passes exceptions through. *)
Definition chunk_step {R} (w : Worker R) (mask : list bool) (chunks_dir : path)
    (recalculate : bool) (c : Z * Z) : M unit :=
  let '(ind_start, ind_end) := c in
  let chunk_indices := py_slice (arange (count_nonzero mask)) ind_start ind_end in
  let cm := chunk_mask mask ind_start ind_end in
  if Nat.ltb 0 (length chunk_indices)
  then _run_on_slice w chunks_dir recalculate ind_start ind_end cm
  else ret tt.

Fixpoint chunk_loop {R} (w : Worker R) (mask : list bool) (chunks_dir : path)
    (recalculate : bool) (chunks : list (Z * Z)) : M unit :=
  match chunks with
  | [] => ret tt
  | c :: rest => chunk_step w mask chunks_dir recalculate c ;;;
                 chunk_loop w mask chunks_dir recalculate rest
  end.

(** [VoxelRange.run] with [self.nmr_voxels = nmr_voxels] and
    [problem_data.mask = mask]; a [ValueError] of the generator is raised
    when the loop starts. *)
Definition run {R} (w : Worker R) (nmr_voxels : Z) (mask : list bool)
    (output_path : path) (recalculate : bool) : M R :=
  let chunks_dir := output_path ++ ["chunks"] in
  _prepare_chunk_dir chunks_dir recalculate ;;;
  match _chunks_generator nmr_voxels mask with
  | None => raise
  | Some chunks =>
      chunk_loop w mask chunks_dir recalculate chunks ;;;
      log_event EvCombine ;;;
      return_data <- worker_combine w output_path chunks_dir ;;
      shutil_rmtree chunks_dir ;;;
      ret return_data
  end.

(** *** Contracts of a worker, used as hypotheses *)

(** [process] removes nothing outside its chunk directory. *)
Definition process_keeps_outside {R} (w : Worker R) : Prop :=
  forall fs m d q, is_prefix d q = false -> q ∈ fs -> q ∈ (process w fs m d).2.

(** [process] creates nothing outside its chunk directory but the
    directory's parents. *)
Definition process_adds_within {R} (w : Worker R) : Prop :=
  forall fs m d q, is_prefix d q = false -> q ∈ (process w fs m d).2 ->
    q ∈ fs \/ is_prefix q d = true.

(** [process] returns normally. *)
Definition process_returns {R} (w : Worker R) : Prop :=
  forall fs m d, (process w fs m d).1 = true.

(** [combine] removes nothing under the chunks directory. *)
Definition combine_keeps_chunks {R} (w : Worker R) : Prop :=
  forall fs o cd q, is_prefix cd q = true -> q ∈ fs -> q ∈ (combine w fs o cd).2.

(** The chunk directory is the sole record of a chunk's result (spec,
    section 3): with nothing under it, no output exists for the chunk. *)
Definition output_exists_reads_dir {R} (w : Worker R) : Prop :=
  forall fs d, (forall q, q ∈ fs -> is_prefix d q = false) -> output_exists w fs d = false.

(** Modelled from the spec: the fitting worker of [mdt.utils] (section 6):
    [process] writes its maps into the chunk directory, [output_exists]
    checks for them there, [combine] writes the merged maps into the
    output path and returns the number of distinct entries under the
    chunks directory. *)
Definition maps_worker : Worker Z := {|
  output_exists := fun fs d => bool_decide ((d ++ ["maps"]) ∈ fs);
  process := fun fs m d => (true, ancestors (d ++ ["maps"]) ++ fs);
  combine := fun fs o cd =>
    (Some (Z.of_nat (length (remove_dups (List.filter (is_prefix cd) fs)))),
     ancestors (o ++ ["maps"]) ++ fs)
|}.

(** The same worker, except that [process] raises on the chunk directory
    [bad] after writing a partial file there. *)
Definition maps_worker_failing_on (bad : path) : Worker Z := {|
  output_exists := output_exists maps_worker;
  process := fun fs m d =>
    if bool_decide (d = bad) then (false, ancestors (d ++ ["partial"]) ++ fs)
    else process maps_worker fs m d;
  combine := combine maps_worker
|}.

End VoxelRange.

Module CascadeNames.

(** What [get_model(name)] returns, as far as
    [BatchFitOutputInfo._get_single_model_names] looks at it: a cascade
    ([DMRICascadeModelInterface]) with its [get_model_names()], or a
    single model. *)
Inductive model :=
  | SingleModel
  | CascadeModel (model_names : list string).

(** The model registry [get_model]. *)
Definition registry := string -> model.

(** The [for] loop of the inner function [get_names], with the memo
    [lookup_cache] threaded through; [rec] is the recursive call. *)
Fixpoint get_names_loop (get_model : registry)
    (rec : gmap string (list string) -> list string ->
           option (list string * gmap string (list string)))
    (lookup_cache : gmap string (list string)) (current_names : list string)
    (single_model_names : list string)
    : option (list string * gmap string (list string)) :=
  match current_names with
  | [] => Some (single_model_names, lookup_cache)
  | model_name :: rest =>
      match lookup_cache !! model_name with
      | Some cached =>
          get_names_loop get_model rec lookup_cache rest (single_model_names ++ cached)
      | None =>
          match get_model model_name with
          | CascadeModel sub_names =>
              match rec lookup_cache sub_names with
              | None => None
              | Some (resolved_names, cache') =>
                  get_names_loop get_model rec
                    (<[model_name := resolved_names]> cache') rest
                    (single_model_names ++ resolved_names)
              end
          | SingleModel =>
              get_names_loop get_model rec
                (<[model_name := [model_name]]> lookup_cache) rest
                (single_model_names ++ [model_name])
          end
      end
  end.

(** [get_names] with a bound [depth] on the depth of the recursion:
    [None] when the bound is hit (the Python recursion on a cyclic
    cascade never returns and ends in a [RecursionError]). *)
Fixpoint get_names (get_model : registry) (depth : nat)
    (lookup_cache : gmap string (list string)) (current_names : list string)
    : option (list string * gmap string (list string)) :=
  match depth with
  | 0 => None
  | S d => get_names_loop get_model (get_names get_model d) lookup_cache current_names []
  end.

(** [_get_single_model_names]: a fresh memo per call, then
    [list(set(...))]; the order of a Python set is unspecified, and
    [remove_dups] stands for one of its orders. *)
Definition _get_single_model_names (get_model : registry) (depth : nat)
    (model_names : list string) : option (list string) :=
  match get_names get_model depth ∅ model_names with
  | None => None
  | Some (names, _) => Some (remove_dups names)
  end.

(** The leaf names reachable from a model name. *)
Inductive leaf_of (get_model : registry) : string -> string -> Prop :=
  | leaf_single n : get_model n = SingleModel -> leaf_of get_model n n
  | leaf_cascade n sub_names s x :
      get_model n = CascadeModel sub_names -> s ∈ sub_names ->
      leaf_of get_model s x -> leaf_of get_model n x.

(** No cascade contains itself: sub-models have a smaller rank. *)
Definition acyclic (get_model : registry) (rank : string -> nat) : Prop :=
  forall n sub_names, get_model n = CascadeModel sub_names ->
    forall s, s ∈ sub_names -> (rank s < rank n)%nat.

(** The registry of the spec's example: A's sub-models are B and C, C's
    are D and B. *)
Definition example_registry (n : string) : model :=
  if bool_decide (n = "A (Cascade)") then CascadeModel ["B"; "C (Cascade)"]
  else if bool_decide (n = "C (Cascade)") then CascadeModel ["D"; "B"]
  else SingleModel.

Definition example_rank (n : string) : nat :=
  if bool_decide (n = "A (Cascade)") then 2
  else if bool_decide (n = "C (Cascade)") then 1
  else 0.

(** A set [cyc] of cascades each of which has a sub-model in [cyc]: the
    cascades on (or leading into) a cycle of the cascade graph. *)
Definition closed_cascades (get_model : registry) (cyc : list string) : Prop :=
  forall n, n ∈ cyc -> exists sub_names,
    get_model n = CascadeModel sub_names /\ exists s, s ∈ sub_names /\ s ∈ cyc.

(** A registry in which the cascade "X (Cascade)" lists itself. *)
Definition self_registry (n : string) : model :=
  if bool_decide (n = "X (Cascade)") then CascadeModel ["B"; "X (Cascade)"]
  else SingleModel.

End CascadeNames.

Module Selection.
Local Open Scope Z_scope.

(** A [SubjectInfo], as far as the selection looks at it: its
    [subject_id]. *)
Definition subject := string.

(** The value of [start_from]: [None], a string, or an integer. *)
Inductive start_from_t :=
  | StartNone
  | StartStr (s : string)
  | StartInt (z : Z).

(** [SelectedSubjects(subject_ids, indices, start_from)]; [None] for a
    Python [None]. *)
Record SelectedSubjects := mkSelectedSubjects {
  subject_ids : option (list string);
  indices : option (list Z);
  start_from : start_from_t
}.

(** The decimal digits of a string as an integer, [None] when some
    character is not a digit. *)
Fixpoint digits_value (s : string) (acc : Z) : option Z :=
  match s with
  | String.EmptyString => Some acc
  | String.String c rest =>
      let d := Z.of_nat (nat_of_ascii c) - 48 in
      if (0 <=? d) && (d <=? 9) then digits_value rest (acc * 10 + d) else None
  end.

(** [int(s)] on a string, for an optional minus sign followed by decimal
    digits; [None] is the [ValueError] raised on other strings. *)
Definition py_int_str (s : string) : option Z :=
  match s with
  | String.EmptyString => None
  | String.String c rest =>
      if bool_decide (c = "-"%char) then
        match rest with
        | String.EmptyString => None
        | _ => option_map Z.opp (digits_value rest 0)
        end
      else digits_value s 0
  end.

(** [int(self.start_from)]. *)
Definition py_int (v : start_from_t) : option Z :=
  match v with
  | StartNone => None
  | StartStr s => py_int_str s
  | StartInt z => Some z
  end.

(** The first loop of [_get_starting_pos]: the index of the subject whose
    id is [s]. *)
Fixpoint str_loop (s : string) (ind : nat) (subjects : list subject) : option nat :=
  match subjects with
  | [] => None
  | subj :: rest => if bool_decide (subj = s) then Some ind else str_loop s (S ind) rest
  end.

(** The second loop of [_get_starting_pos]: [int(self.start_from)] is
    evaluated at every iteration (outer [None]: it raised); the inner
    [None] is the [None] returned when the loop ends. *)
Fixpoint int_loop (v : option Z) (ind : nat) (subjects : list subject)
    : option (option nat) :=
  match subjects with
  | [] => Some None
  | _ :: rest =>
      match v with
      | None => None
      | Some z => if Z.of_nat ind =? z then Some (Some ind) else int_loop v (S ind) rest
      end
  end.

(** [SelectedSubjects._get_starting_pos]. *)
Definition _get_starting_pos (self : SelectedSubjects) (subjects : list subject)
    : option (option nat) :=
  match start_from self with
  | StartNone => Some (Some 0%nat)
  | StartStr s =>
      match str_loop s 0 subjects with
      | Some ind => Some (Some ind)
      | None => int_loop (py_int (start_from self)) 0 subjects
      end
  | StartInt _ => int_loop (py_int (start_from self)) 0 subjects
  end.

(** [subjects[starting_pos:]]; a [None] start is the whole list. *)
Definition py_slice_from (starting_pos : option nat) (subjects : list subject)
    : list subject :=
  match starting_pos with
  | None => subjects
  | Some p => drop p subjects
  end.

(** The comprehension
    [[subject for ind, subject in enumerate(subjects)
      if ind in self.indices and ind >= starting_pos]];
    comparing with a [None] start raises a [TypeError] ([None]). *)
Fixpoint select_indices (idx : list Z) (starting_pos : option nat) (ind : nat)
    (subjects : list subject) : option (list subject) :=
  match subjects with
  | [] => Some []
  | subj :: rest =>
      let keep :=
        if bool_decide (Z.of_nat ind ∈ idx) then
          match starting_pos with
          | None => None
          | Some p => Some (bool_decide (p <= ind)%nat)
          end
        else Some false in
      match keep, select_indices idx starting_pos (S ind) rest with
      | Some b, Some rest' => Some (if b then subj :: rest' else rest')
      | _, _ => None
      end
  end.

(** [SelectedSubjects.get_selection]; [None] when an exception is raised.
    [if self.indices:] and [if self.subject_ids:] test for a non-empty
    list. *)
Definition get_selection (self : SelectedSubjects) (subjects : list subject)
    : option (list subject) :=
  match _get_starting_pos self subjects with
  | None => None
  | Some starting_pos =>
      match indices self, subject_ids self with
      | None, None => Some (py_slice_from starting_pos subjects)
      | _, _ =>
          let selected :=
            match indices self with
            | Some ((_ :: _) as idx) => select_indices idx starting_pos 0 subjects
            | _ => Some subjects
            end in
          match selected with
          | None => None
          | Some subjects1 =>
              match subject_ids self with
              | Some ((_ :: _) as ids) =>
                  Some (List.filter (fun s => bool_decide (s ∈ ids)) subjects1)
              | _ => Some subjects1
              end
          end
      end
  end.

End Selection.

Module PyPath.

Definition starts_with_slash (s : string) : bool :=
  match s with
  | String.String c _ => bool_decide (c = "/"%char)
  | String.EmptyString => false
  end.

Fixpoint ends_with_slash (s : string) : bool :=
  match s with
  | String.EmptyString => false
  | String.String c String.EmptyString => bool_decide (c = "/"%char)
  | String.String _ rest => ends_with_slash rest
  end.

Fixpoint has_slash (s : string) : bool :=
  match s with
  | String.EmptyString => false
  | String.String c rest => bool_decide (c = "/"%char) || has_slash rest
  end.

(** [os.path.join(a, *p)] of [posixpath]: an absolute component replaces
    the path; a separator is added unless the path is empty or already
    ends with one. *)
Fixpoint os_path_join (a : string) (p : list string) : string :=
  match p with
  | [] => a
  | b :: rest =>
      let a' :=
        if starts_with_slash b then b
        else if bool_decide (a = "") || ends_with_slash a then String.append a b
        else String.append a (String.append "/" b) in
      os_path_join a' rest
  end.

(** The part of a path after its last separator. *)
Fixpoint basename_go (s cur : string) : string :=
  match s with
  | String.EmptyString => cur
  | String.String c rest =>
      if bool_decide (c = "/"%char) then basename_go rest ""
      else basename_go rest (String.append cur (String.String c String.EmptyString))
  end.

Definition strip_suffix (suffix s : string) : option string :=
  let n := String.length s in
  let k := String.length suffix in
  if bool_decide (k <= n)%nat && String.eqb (String.substring (n - k) k s) suffix
  then Some (String.substring 0 (n - k) s) else None.

(** Modelled from the spec: the file name part of [split_image_path(p)]
    (index 1 of the returned triple), the base name of [p] stripped of a
    [.nii.gz] or [.nii] extension. *)
Definition split_image_path_name (p : string) : string :=
  let b := basename_go p "" in
  match strip_suffix ".nii.gz" b with
  | Some r => r
  | None => default b (strip_suffix ".nii" b)
  end.

(** Python truthiness of an optional string ([None] and [''] are false). *)
Definition str_truthy (s : option string) : bool :=
  match s with
  | Some (String.String _ _) => true
  | _ => false
  end.

End PyPath.

Module Profiles.

(** A [SubjectInfo], identified by its [subject_id]. *)
Definition subject := string.

(** A [SimpleBatchProfile] object: the discovery hook [_get_subjects] of
    the concrete profile (a function of the root and output directories,
    over a fixed file system) and the attributes; [discovery_calls]
    counts the calls of the hook. *)
Record SimpleBatchProfile := mkSimpleBatchProfile {
  _get_subjects : string -> string -> option string -> list subject;
  _root_dir : string;
  _output_base_dir : string;
  _output_sub_dir : option string;
  _append_mask_name_to_output_sub_dir : bool;
  _subjects_found : option (list subject);
  discovery_calls : nat
}.

(** [SimpleBatchProfile.__init__] of a profile with discovery hook
    [get_subjects_hook]. *)
Definition new_profile (get_subjects_hook : string -> string -> option string -> list subject)
    : SimpleBatchProfile :=
  mkSimpleBatchProfile get_subjects_hook "" "output" None true None 0.

(** [BatchProfile.set_root_dir]. *)
Definition set_root_dir (root_dir : string) (self : SimpleBatchProfile) : SimpleBatchProfile :=
  mkSimpleBatchProfile (_get_subjects self) root_dir (_output_base_dir self)
    (_output_sub_dir self) (_append_mask_name_to_output_sub_dir self)
    (_subjects_found self) (discovery_calls self).

(** The [output_base_dir] setter: it also sets [_subjects_found = None]. *)
Definition set_output_base_dir (output_base_dir : string) (self : SimpleBatchProfile)
    : SimpleBatchProfile :=
  mkSimpleBatchProfile (_get_subjects self) (_root_dir self) output_base_dir
    (_output_sub_dir self) (_append_mask_name_to_output_sub_dir self)
    None (discovery_calls self).

(** The [output_sub_dir] setter: it also sets [_subjects_found = None]. *)
Definition set_output_sub_dir (output_sub_dir : option string) (self : SimpleBatchProfile)
    : SimpleBatchProfile :=
  mkSimpleBatchProfile (_get_subjects self) (_root_dir self) (_output_base_dir self)
    output_sub_dir (_append_mask_name_to_output_sub_dir self)
    None (discovery_calls self).

(** Python truthiness of [self._subjects_found]: [None] and [[]] are
    false. *)
Definition subjects_found_truthy (self : SimpleBatchProfile) : bool :=
  match _subjects_found self with
  | Some (_ :: _) => true
  | _ => false
  end.

(** [if not self._subjects_found: self._subjects_found = self._get_subjects()] *)
Definition ensure_subjects (self : SimpleBatchProfile) : SimpleBatchProfile :=
  if subjects_found_truthy self then self
  else
    mkSimpleBatchProfile (_get_subjects self) (_root_dir self) (_output_base_dir self)
      (_output_sub_dir self) (_append_mask_name_to_output_sub_dir self)
      (Some (_get_subjects self (_root_dir self) (_output_base_dir self) (_output_sub_dir self)))
      (S (discovery_calls self)).

(** The value of [self._subjects_found] once it has been set. *)
Definition found (self : SimpleBatchProfile) : list subject :=
  default [] (_subjects_found self).

Definition get_subjects (self : SimpleBatchProfile) : list subject * SimpleBatchProfile :=
  let self' := ensure_subjects self in (found self', self').

Definition profile_suitable (self : SimpleBatchProfile) : bool * SimpleBatchProfile :=
  let self' := ensure_subjects self in (bool_decide (0 < length (found self'))%nat, self').

Definition get_subjects_count (self : SimpleBatchProfile) : nat * SimpleBatchProfile :=
  let self' := ensure_subjects self in (length (found self'), self').

(** What the discovery hook finds for the current configuration. *)
Definition discovered (p : SimpleBatchProfile) : list subject :=
  _get_subjects p (_root_dir p) (_output_base_dir p) (_output_sub_dir p).

(** The three queries that read the memoized subject list. *)
Inductive query := QGetSubjects | QProfileSuitable | QGetSubjectsCount.

Definition run_query (q : query) (self : SimpleBatchProfile) : SimpleBatchProfile :=
  match q with
  | QGetSubjects => snd (get_subjects self)
  | QProfileSuitable => snd (profile_suitable self)
  | QGetSubjectsCount => snd (get_subjects_count self)
  end.

(** A sequence of queries on the same profile object. *)
Definition run_queries (qs : list query) (self : SimpleBatchProfile) : SimpleBatchProfile :=
  fold_left (fun p q => run_query q p) qs self.

(** The loop of [get_best_batch_profile] over the loaded profiles. *)
Fixpoint best_profile_loop (data_folder : string) (crawlers : list SimpleBatchProfile)
    (best_crawler : option SimpleBatchProfile) (best_subjects_count : nat)
    : option SimpleBatchProfile :=
  match crawlers with
  | [] => best_crawler
  | crawler :: rest =>
      let crawler1 := set_root_dir data_folder crawler in
      let '(suitable, crawler2) := profile_suitable crawler1 in
      if suitable then
        let '(tmp_count, crawler3) := get_subjects_count crawler2 in
        if bool_decide (best_subjects_count < tmp_count)%nat
        then best_profile_loop data_folder rest (Some crawler3) tmp_count
        else best_profile_loop data_folder rest best_crawler best_subjects_count
      else best_profile_loop data_folder rest best_crawler best_subjects_count
  end.

(** [get_best_batch_profile(data_folder)] over the loaded profiles
    [crawlers], in the order of [list_all()]. *)
Definition get_best_batch_profile (data_folder : string) (crawlers : list SimpleBatchProfile)
    : option SimpleBatchProfile :=
  best_profile_loop data_folder crawlers None 0.

(** What the loop observes of one profile bound to [data_folder]. *)
Definition bound_suitable (data_folder : string) (c : SimpleBatchProfile) : bool :=
  fst (profile_suitable (set_root_dir data_folder c)).

Definition bound_count (data_folder : string) (c : SimpleBatchProfile) : nat :=
  fst (get_subjects_count (snd (profile_suitable (set_root_dir data_folder c)))).

Definition bound_after (data_folder : string) (c : SimpleBatchProfile) : SimpleBatchProfile :=
  snd (get_subjects_count (snd (profile_suitable (set_root_dir data_folder c)))).

(** [SimpleBatchProfile._get_subject_output_dir(subject_id, mask_fname,
    subject_base_dir)]. *)
Definition _get_subject_output_dir (self : SimpleBatchProfile) (subject_id : string)
    (mask_fname : option string) (subject_base_dir : option string) : string :=
  let output_dir :=
    match subject_base_dir with
    | Some d => if PyPath.str_truthy subject_base_dir then d
                else PyPath.os_path_join (_root_dir self) [subject_id; _output_base_dir self]
    | None => PyPath.os_path_join (_root_dir self) [subject_id; _output_base_dir self]
    end in
  let output_dir :=
    match _output_sub_dir self with
    | Some s => if PyPath.str_truthy (Some s) then PyPath.os_path_join output_dir [s]
                else output_dir
    | None => output_dir
    end in
  match mask_fname with
  | Some m =>
      if _append_mask_name_to_output_sub_dir self && PyPath.str_truthy mask_fname
      then PyPath.os_path_join output_dir [PyPath.split_image_path_name m]
      else output_dir
  | None => output_dir
  end.

(** The [batch_profile] argument of [batch_profile_factory]: [None], the
    name of a profile, or a profile object. *)
Inductive profile_arg :=
  | ProfileNone
  | ProfileName (name : string)
  | ProfileObject (p : SimpleBatchProfile).

(** [batch_profile_factory(batch_profile, data_folder)]. [load] is
    [BatchProfilesLoader().load] ([None]: it raised) and [crawlers] the
    profiles [get_best_batch_profile] loads; calling [set_root_dir] on a
    [None] profile raises an [AttributeError], the result [None]. *)
Definition batch_profile_factory (load : string -> option SimpleBatchProfile)
    (crawlers : list SimpleBatchProfile) (batch_profile : profile_arg) (data_folder : string)
    : option SimpleBatchProfile :=
  let batch_profile :=
    match batch_profile with
    | ProfileNone => get_best_batch_profile data_folder crawlers
    | ProfileName name => load name
    | ProfileObject p => Some p
    end in
  match batch_profile with
  | None => None
  | Some p => Some (set_root_dir data_folder p)
  end.

End Profiles.

Module Collect.

(** A path as the list of its components. *)
Definition path := list string.

(** What a path names: a regular file, a directory, or a symbolic link
    to a target path. *)
Inductive node :=
  | File
  | Dir
  | Link (target : path).

#[global] Instance node_eq_dec : EqDecision node.
Proof. solve_decision. Defined.

(** The file system: the node at each existing path. *)
Definition fs_t := gmap path node.

Definition is_prefix (p q : path) : bool :=
  bool_decide (take (length p) q = p).

(** [os.path.exists] follows a link (one level: the target must exist). *)
Definition os_path_exists (fs : fs_t) (p : path) : bool :=
  match fs !! p with
  | None => false
  | Some (Link t) => bool_decide (is_Some (fs !! t))
  | Some _ => true
  end.

Definition os_path_islink (fs : fs_t) (p : path) : bool :=
  match fs !! p with
  | Some (Link _) => true
  | _ => false
  end.

Definition os_path_isdir (fs : fs_t) (p : path) : bool :=
  match fs !! p with
  | Some Dir => true
  | Some (Link t) => bool_decide (fs !! t = Some Dir)
  | _ => false
  end.

(** [os.makedirs(p)]: creates every missing directory on the way;
    [None] when a component is a regular file. *)
Fixpoint makedirs_go (fs : fs_t) (done_ : path) (rest : path) : option fs_t :=
  match rest with
  | [] => Some fs
  | c :: rest' =>
      let p := done_ ++ [c] in
      match fs !! p with
      | None => makedirs_go (<[p := Dir]> fs) p rest'
      | Some File => None
      | Some _ => makedirs_go fs p rest'
      end
  end.

Definition os_makedirs (fs : fs_t) (p : path) : option fs_t := makedirs_go fs [] p.

(** [os.unlink(p)]. *)
Definition os_unlink (fs : fs_t) (p : path) : option fs_t :=
  match fs !! p with
  | None | Some Dir => None
  | Some _ => Some (delete p fs)
  end.

(** [shutil.rmtree(p)]: removes a directory and everything below it; on a
    regular file it raises [NotADirectoryError], on a link [OSError]
    ([None]). *)
Definition shutil_rmtree (fs : fs_t) (p : path) : option fs_t :=
  match fs !! p with
  | Some Dir => Some (filter (fun kv => is_prefix p kv.1 = false) fs)
  | _ => None
  end.

(** The entries of [fs] under [src], moved under [dst]. *)
Definition rebase (src dst : path) (fs : fs_t) : fs_t :=
  list_to_map
    ((fun kv : path * node =>
        if is_prefix src kv.1 then (dst ++ drop (length src) kv.1, kv.2) else kv)
     <$> map_to_list fs).

(** [shutil.move(src, dst)]: into [dst] when it is a directory, else a
    rename of [src] to [dst]. *)
Definition shutil_move (fs : fs_t) (src dst : path) : option fs_t :=
  match fs !! src with
  | None => None
  | Some _ =>
      let dst' := if os_path_isdir fs dst then dst ++ [default "" (last src)] else dst in
      Some (rebase src dst' fs)
  end.

(** [os.symlink(src, dst)]: [FileExistsError] when [dst] is taken. *)
Definition os_symlink (fs : fs_t) (src dst : path) : option fs_t :=
  match fs !! dst with
  | Some _ => None
  | None => Some (<[dst := Link src]> fs)
  end.

(** [shutil.copytree(src, dst)]: [FileExistsError] when [dst] is taken. *)
Definition shutil_copytree (fs : fs_t) (src dst : path) : option fs_t :=
  match fs !! src, fs !! dst with
  | Some Dir, None =>
      Some (union
              (list_to_map
                 ((fun kv : path * node => (dst ++ drop (length src) kv.1, kv.2)) <$>
                  List.filter (fun kv : path * node => is_prefix src kv.1) (map_to_list fs)))
              fs)
  | _, _ => None
  end.

(** A [BatchFitSubjectOutputInfo] as far as the copy looks at it. *)
Record subject_output_info := mkSubjectOutputInfo {
  subject_id : string;
  model_name : string;
  output_path : path
}.

(** The inner [copy_function] of [collect_batch_fit_output]; [None] when
    an exception is raised. *)
Definition copy_function (output_dir : path) (symlink move : bool)
    (subject_info : subject_output_info) (fs : fs_t) : option fs_t :=
  let subject_dir := output_dir ++ [subject_id subject_info] in
  let fs1 := if os_path_exists fs subject_dir then Some fs else os_makedirs fs subject_dir in
  match fs1 with
  | None => None
  | Some fs1 =>
      let subject_out := subject_dir ++ [model_name subject_info] in
      let fs2 :=
        if os_path_exists fs1 subject_out || os_path_islink fs1 subject_out then
          if os_path_islink fs1 subject_out then os_unlink fs1 subject_out
          else shutil_rmtree fs1 subject_out
        else Some fs1 in
      match fs2 with
      | None => None
      | Some fs2 =>
          if move then shutil_move fs2 (output_path subject_info) subject_out
          else if symlink then os_symlink fs2 (output_path subject_info) subject_out
          else shutil_copytree fs2 (output_path subject_info) subject_out
      end
  end.



End Collect.

(* ================================================================== *)
(** ** Theorems *)
(* ================================================================== *)

Module VoxelRangeFacts.
Import VoxelRange.
Local Open Scope Z_scope.

Lemma count_nonzero_nonneg mask : (0 <= count_nonzero mask)%Z.
Proof. unfold count_nonzero. lia. Qed.

(** The number of chunk starts: [i] is a start iff [i * n < total]. *)
Lemma nr_chunks_spec (total n : Z) (i : nat) :
  (0 < n)%Z -> (0 <= total)%Z ->
  (i < Z.to_nat ((total + n - 1) / n))%nat <-> (Z.of_nat i * n < total)%Z.
Proof.
  intros Hn Ht.
  pose proof (Z.div_mod (total + n - 1) n ltac:(lia)) as Hdm.
  pose proof (Z.mod_pos_bound (total + n - 1) n Hn) as Hb.
  set (q := (total + n - 1) / n) in *. set (r := (total + n - 1) mod n) in *.
  assert (0 <= q)%Z by (apply Z.div_pos; lia).
  split; intros Hi.
  - assert (Z.of_nat i + 1 <= q)%Z by lia. nia.
  - assert (Z.of_nat i < q)%Z by nia. lia.
Qed.

Lemma chunks_generator_eq nmr mask :
  (0 < nmr)%Z ->
  _chunks_generator nmr mask =
  Some (map (fun i : nat =>
               (Z.of_nat i * nmr,
                Z.min (count_nonzero mask) (Z.of_nat i * nmr + nmr)))
            (seq 0%nat (Z.to_nat ((count_nonzero mask + nmr - 1) / nmr)))).
Proof.
  intros Hn. unfold _chunks_generator, py_range.
  destruct (Z.eqb_spec nmr 0); [lia|].
  destruct (Z.ltb_spec 0 nmr); [|lia].
  rewrite Z.sub_0_r, map_map. f_equal.
Qed.

(** C1 *)
(** ** C1: for a positive chunk size the chunk generator partitions
    [0, total_active_voxels) into consecutive non-empty half-open ranges,
    in increasing order and without overlap, each of length at most
    [nmr_voxels]; there are [ceil(total / nmr_voxels)] of them, and none
    exactly when there are no active voxels. *)
Theorem chunks_generator_partition (nmr_voxels : Z) (mask : list bool)
    (Hn : (0 < nmr_voxels)%Z) :
  let total := count_nonzero mask in
  exists chunks,
    _chunks_generator nmr_voxels mask = Some chunks /\
    Z.of_nat (length chunks) = ((total + nmr_voxels - 1) / nmr_voxels)%Z /\
    (chunks = [] <-> total = 0%Z) /\
    (forall i s e, chunks !! i = Some (s, e) ->
       (s < e)%Z /\ (e - s <= nmr_voxels)%Z) /\
    (forall s e, head chunks = Some (s, e) -> s = 0%Z) /\
    (forall s e, last chunks = Some (s, e) -> e = total) /\
    (forall i s e s' e', chunks !! i = Some (s, e) ->
       chunks !! S i = Some (s', e') -> e = s') /\
    (forall i j s e s' e', (i < j)%nat -> chunks !! i = Some (s, e) ->
       chunks !! j = Some (s', e') -> (e <= s')%Z) /\
    (forall x, (0 <= x < total)%Z <->
       exists s e, (s, e) ∈ chunks /\ (s <= x < e)%Z).
Proof.
  intros total. pose proof (count_nonzero_nonneg mask) as Ht.
  fold total in Ht.
  set (L := Z.to_nat ((total + nmr_voxels - 1) / nmr_voxels)).
  assert (HL : forall i : nat, (i < L)%nat <-> (Z.of_nat i * nmr_voxels < total)%Z)
    by (intros; apply nr_chunks_spec; lia).
  assert (Hlk : forall i s e,
    map (fun i : nat => (Z.of_nat i * nmr_voxels,
                         Z.min total (Z.of_nat i * nmr_voxels + nmr_voxels)))
        (seq 0%nat L) !! i = Some (s, e) <->
    (i < L)%nat /\ s = (Z.of_nat i * nmr_voxels)%Z /\
    e = Z.min total (Z.of_nat i * nmr_voxels + nmr_voxels)).
  { intros i s e. rewrite list_lookup_fmap. destruct (seq 0%nat L !! i) eqn:E.
    - apply lookup_seq in E as [-> ?]. simpl. split.
      + intros [=]. auto.
      + intros (_ & -> & ->). reflexivity.
    - apply lookup_ge_None in E. rewrite length_seq in E. simpl. split; [discriminate|lia]. }
  eexists; split; [apply chunks_generator_eq; exact Hn|].
  fold total. fold L.
  set (chunks := map _ (seq 0%nat L)).
  assert (Hlen : length chunks = L) by (unfold chunks; rewrite length_map, length_seq; done).
  split.
  { rewrite Hlen. unfold L. rewrite Z2Nat.id; [done|].
    apply Z.div_pos; lia. }
  split.
  { split.
    - intros Hc. apply (f_equal length) in Hc. rewrite Hlen in Hc.
      simpl in Hc. destruct (decide (total = 0%Z)); [done|].
      specialize (HL 0%nat). lia.
    - intros Hz. apply nil_length_inv. rewrite Hlen.
      destruct L as [|l] eqn:EL; [done|].
      specialize (HL 0%nat). lia. }
  split.
  { intros i s e Hi. apply Hlk in Hi as (Hi & -> & ->).
    apply HL in Hi. lia. }
  split.
  { intros s e Hh. destruct chunks as [|c cs] eqn:Ec; [discriminate|].
    simpl in Hh. injection Hh as Hh. subst c.
    assert (chunks !! 0%nat = Some (s, e)) as H0 by (rewrite Ec; done).
    apply Hlk in H0 as (_ & -> & _). lia. }
  split.
  { intros s e Hl. apply last_Some in Hl as [l' Hl'].
    assert (chunks !! length l' = Some (s, e)) as Hx
      by (rewrite Hl', lookup_app_r, Nat.sub_diag by lia; done).
    assert (length chunks = S (length l')) as HS
      by (rewrite Hl', length_app; simpl; lia).
    apply Hlk in Hx as (Hx & -> & ->).
    assert (~ (S (length l') < L)%nat) as Hn' by lia.
    rewrite HL in Hn'. rewrite Nat2Z.inj_succ in Hn'. lia. }
  split.
  { intros i s e s' e' Hi Hi'.
    apply Hlk in Hi as (Hi & -> & ->). apply Hlk in Hi' as (Hi' & -> & ->).
    apply HL in Hi'. rewrite Nat2Z.inj_succ in Hi'. lia. }
  split.
  { intros i j s e s' e' Hij Hi Hj.
    apply Hlk in Hi as (Hi & -> & ->). apply Hlk in Hj as (Hj & -> & ->).
    assert (Z.of_nat i + 1 <= Z.of_nat j)%Z by lia. nia. }
  intros x. split.
  - intros Hx. exists (Z.of_nat (Z.to_nat (x / nmr_voxels)) * nmr_voxels)%Z.
    eexists. split.
    + apply list_elem_of_lookup. exists (Z.to_nat (x / nmr_voxels)).
      apply Hlk. split; [|done].
      apply HL. rewrite Z2Nat.id by (apply Z.div_pos; lia).
      pose proof (Z.mul_div_le x nmr_voxels Hn). lia.
    + rewrite Z2Nat.id by (apply Z.div_pos; lia).
      pose proof (Z.mul_div_le x nmr_voxels Hn).
      pose proof (Z.mod_pos_bound x nmr_voxels Hn).
      pose proof (Z.div_mod x nmr_voxels ltac:(lia)). lia.
  - intros (s & e & Hin & Hx). apply list_elem_of_lookup in Hin as [i Hi].
    apply Hlk in Hi as (Hi & -> & ->). apply HL in Hi. lia.
Qed.

(** *** Chunk directory names are injective *)

Fixpoint has_us (s : string) : bool :=
  match s with
  | EmptyString => false
  | String c s' => bool_decide (c = "_"%char) || has_us s'
  end.

Lemma pretty_N_char_not_us (y : N) : pretty_N_char y <> "_"%char.
Proof. unfold pretty_N_char. repeat case_match; discriminate. Qed.

Lemma pretty_N_go_no_us (x : N) (s : string) :
  has_us s = false -> has_us (pretty_N_go x s) = false.
Proof.
  revert s. induction (N.lt_wf_0 x) as [x _ IH]; intros s Hs.
  destruct (decide (x = 0%N)) as [->|Hx]; [by rewrite pretty_N_go_0|].
  rewrite pretty_N_go_step by lia. apply IH; [apply N.div_lt; lia|].
  simpl. rewrite Hs, orb_false_r.
  apply bool_decide_eq_false_2, pretty_N_char_not_us.
Qed.

Lemma pretty_Z_no_us (z : Z) : has_us (pretty z) = false.
Proof.
  assert (forall p : positive, has_us (pretty (Npos p)) = false) as Hp.
  { intros p. unfold pretty, pretty_N.
    destruct (decide (N.pos p = 0%N)); [done|]. by apply pretty_N_go_no_us. }
  destruct z as [|p|p]; [done|apply Hp|].
  unfold pretty at 1, pretty_Z. simpl. apply Hp.
Qed.

Lemma append_us_inj (a b a' b' : string) :
  has_us a = false -> has_us a' = false ->
  a +:+ "_" +:+ b = a' +:+ "_" +:+ b' -> a = a' /\ b = b'.
Proof.
  revert a'. induction a as [|c a IH]; intros [|c' a'] Ha Ha' Heq;
    simpl in *.
  - by injection Heq.
  - injection Heq as <- _. done.
  - injection Heq as -> _. done.
  - apply orb_false_iff in Ha as [_ Ha]. apply orb_false_iff in Ha' as [_ Ha'].
    injection Heq as -> Heq. destruct (IH a' Ha Ha' Heq) as [-> ->]. done.
Qed.

Lemma chunk_dir_name_inj s e s' e' :
  chunk_dir_name s e = chunk_dir_name s' e' -> s = s' /\ e = e'.
Proof.
  unfold chunk_dir_name. intros H.
  apply append_us_inj in H as [H1 H2]; try apply pretty_Z_no_us.
  split; by apply (inj pretty).
Qed.

(** *** Paths *)

Lemma is_prefix_spec (p q : path) : is_prefix p q = true <-> exists r, q = p ++ r.
Proof.
  revert q. induction p as [|a p IH]; intros [|b q]; simpl.
  - split; [by exists []|done].
  - split; [by exists (b :: q)|done].
  - split; [done|]. intros [r Hr]. discriminate.
  - rewrite andb_true_iff, bool_decide_eq_true, IH. split.
    + intros [-> [r ->]]. by exists r.
    + intros [r Hr]. injection Hr as -> ->. split; [done|]. by exists r.
Qed.

Lemma is_prefix_refl (p : path) : is_prefix p p = true.
Proof. apply is_prefix_spec. exists []. by rewrite app_nil_r. Qed.

Lemma is_prefix_trans (p q r : path) :
  is_prefix p q = true -> is_prefix q r = true -> is_prefix p r = true.
Proof.
  rewrite !is_prefix_spec. intros [x ->] [y ->]. exists (x ++ y).
  by rewrite app_assoc.
Qed.

Lemma is_prefix_length (p q : path) :
  is_prefix p q = true -> (length p <= length q)%nat.
Proof. rewrite is_prefix_spec. intros [r ->]. rewrite length_app. lia. Qed.

(** Two chunk directories of one chunks directory that are both prefixes
    of a path have the same name. *)
Lemma slice_dirs_same (cd : path) (n n' : string) (q : path) :
  is_prefix (cd ++ [n]) q = true -> is_prefix (cd ++ [n']) q = true -> n = n'.
Proof.
  rewrite !is_prefix_spec. intros [r ->] [r' Hr].
  rewrite <- !app_assoc in Hr. apply app_inv_head in Hr. by injection Hr.
Qed.

Lemma slice_dir_not_prefix_of_parent (cd q : path) (n : string) :
  is_prefix q cd = true -> is_prefix (cd ++ [n]) q = false.
Proof.
  intros Hq. destruct (is_prefix (cd ++ [n]) q) eqn:E; [|done].
  apply is_prefix_length in E, Hq. rewrite length_app in E. simpl in E. lia.
Qed.

Lemma elem_of_ancestors (p q : path) :
  q ∈ ancestors p -> is_prefix q p = true /\ q <> [].
Proof.
  unfold ancestors. rewrite list_elem_of_fmap. intros [k [-> Hk]].
  apply elem_of_seq in Hk. split.
  - apply is_prefix_spec. exists (drop k p). by rewrite take_drop.
  - intros Ht. apply (f_equal length) in Ht. rewrite length_take in Ht.
    simpl in Ht. lia.
Qed.

Lemma ancestors_self (p : path) : p <> [] -> p ∈ ancestors p.
Proof.
  intros Hp. unfold ancestors. apply list_elem_of_fmap.
  exists (length p). rewrite take_ge by lia. split; [done|].
  apply elem_of_seq. destruct p; [done|]. simpl. lia.
Qed.

Lemma is_prefix_snoc (q d : path) (x : string) :
  is_prefix q (d ++ [x]) = true -> is_prefix q d = true \/ q = d ++ [x].
Proof.
  rewrite !is_prefix_spec. intros [r Hr].
  destruct r as [|y r'] using rev_ind.
  - right. by rewrite app_nil_r in Hr.
  - left. exists r'. rewrite app_assoc in Hr.
    by apply app_inj_tail in Hr as [-> _].
Qed.

Lemma elem_of_rmtree_fs (p q : path) (fs : fs_t) :
  q ∈ rmtree_fs p fs <-> q ∈ fs /\ is_prefix p q = false.
Proof.
  unfold rmtree_fs. rewrite !list_elem_of_In, filter_In, negb_true_iff.
  done.
Qed.

(** *** The steps of a run *)

Ltac unfold_m :=
  cbv beta iota zeta delta [bind ret raise modify_fs log_event os_path_exists
    os_makedirs shutil_rmtree write_mask_volume worker_output_exists
    worker_process worker_combine] in *.

Lemma prepare_spec (cd : path) (recalc : bool) (st : state) :
  cd <> [] ->
  exists st', _prepare_chunk_dir cd recalc st = (Some tt, st') /\
    cd ∈ st_fs st' /\ st_log st' = st_log st /\
    (forall q, q ∈ st_fs st' -> q ∈ st_fs st \/ is_prefix q cd = true).
Proof.
  intros Hcd. destruct st as [fs lg].
  unfold _prepare_chunk_dir. unfold_m.
  destruct recalc; simpl; repeat (case_bool_decide; simpl);
    try match goal with
        | H : cd ∈ rmtree_fs cd _ |- _ =>
            apply elem_of_rmtree_fs in H; rewrite is_prefix_refl in H;
            destruct H; discriminate
        end;
    try contradiction;
    (eexists; split; [reflexivity|]; simpl;
     split; [try done; apply elem_of_app; left; by apply ancestors_self|];
     split; [done|]);
    intros q Hq;
    repeat match goal with
      | H : _ ∈ _ ++ _ |- _ => apply elem_of_app in H as [H|H]
      | H : _ ∈ ancestors _ |- _ => apply elem_of_ancestors in H as [H _]; by right
      | H : _ ∈ rmtree_fs _ _ |- _ => apply elem_of_rmtree_fs in H as [H _]; by left
      end; by left.
Qed.

Section Steps.
Context {R : Type} (w : Worker R) (mask : list bool) (cd : path) (recalc : bool).

Ltac step_cases H :=
  repeat (simpl in H;
    match type of H with
    | context [bool_decide ?P] =>
        match goal with E : bool_decide P = _ |- _ => rewrite E in H end
    | context [if bool_decide ?P then _ else _] => destruct (bool_decide P) eqn:?
    | context [if Nat.ltb ?a ?b then _ else _] => destruct (Nat.ltb a b)
    | context [if recalc then _ else _] => destruct recalc
    | context [output_exists ?w ?a ?b] => destruct (output_exists w a b) eqn:?
    | context [process ?w ?a ?b ?c] => destruct (process w a b c) as [[] ?] eqn:?
    end).

Ltac close_keep :=
  repeat match goal with
    | E : process ?w ?a ?m ?d = (_, ?f), Hk : process_keeps_outside ?w |- _ =>
        let H := fresh "Hp" in
        pose proof (Hk a m d) as H; rewrite E in H; simpl in H; clear E
    end;
  repeat first
    [ done
    | apply elem_of_app; right
    | apply elem_of_rmtree_fs; split
    | match goal with H : forall q, _ -> _ -> q ∈ ?f |- _ ∈ ?f => apply H end ].

Lemma step_keeps (Hk : process_keeps_outside w) (s e : Z) (st : state)
    (res : option unit) (st' : state) :
  chunk_step w mask cd recalc (s, e) st = (res, st') ->
  forall q, q ∈ st_fs st -> is_prefix (cd ++ [chunk_dir_name s e]) q = false ->
  q ∈ st_fs st'.
Proof.
  intros Hst q Hq Hnp. destruct st as [fs lg].
  unfold chunk_step, _run_on_slice in Hst. unfold_m.
  step_cases Hst; injection Hst as _ <-; simpl; close_keep.
Qed.

Lemma step_fail_log (s e : Z) (st st' : state) :
  chunk_step w mask cd recalc (s, e) st = (None, st') ->
  st_log st' = st_log st ++ [EvProcess (cd ++ [chunk_dir_name s e])].
Proof.
  intros Hst. destruct st as [fs lg].
  unfold chunk_step, _run_on_slice in Hst. unfold_m.
  step_cases Hst; try discriminate; injection Hst as <-; done.
Qed.

Lemma loop_fail (l : list (Z * Z)) (st st' : state) :
  chunk_loop w mask cd recalc l st = (None, st') ->
  exists pre c post st_pre, l = pre ++ c :: post /\
    chunk_loop w mask cd recalc pre st = (Some tt, st_pre) /\
    chunk_step w mask cd recalc c st_pre = (None, st').
Proof.
  revert st. induction l as [|c rest IH]; intros st Hl; cbn [chunk_loop] in Hl.
  - discriminate.
  - unfold bind at 1 in Hl.
    destruct (chunk_step w mask cd recalc c st) as [[[]|] st1] eqn:Ec.
    + apply IH in Hl as (pre & c' & post & st_pre & -> & Hpre & Hc').
      exists (c :: pre), c', post, st_pre. split; [done|]. split; [|done].
      simpl. unfold bind at 1. by rewrite Ec.
    + injection Hl as <-. exists [], c, rest, st. done.
Qed.

Lemma loop_keeps (Hk : process_keeps_outside w) (l : list (Z * Z)) (st : state)
    (res : option unit) (st' : state) :
  chunk_loop w mask cd recalc l st = (res, st') ->
  forall q, q ∈ st_fs st ->
  (forall s e, (s, e) ∈ l -> is_prefix (cd ++ [chunk_dir_name s e]) q = false) ->
  q ∈ st_fs st'.
Proof.
  revert st. induction l as [|[s e] rest IH]; intros st Hl q Hq Hnp;
    cbn [chunk_loop] in Hl.
  - by injection Hl as _ <-.
  - unfold bind at 1 in Hl.
    destruct (chunk_step w mask cd recalc (s, e) st) as [[[]|] st1] eqn:Ec.
    + eapply IH; [exact Hl| |].
      * eapply step_keeps; [done|exact Ec|done|]. apply Hnp. by left.
      * intros s' e' Hin. apply Hnp. by right.
    + injection Hl as _ <-. eapply step_keeps; [done|exact Ec|done|].
      apply Hnp. by left.
Qed.

End Steps.

Lemma chunks_generator_props (nmr : Z) (mask : list bool) (chunks : list (Z * Z)) :
  0 < nmr -> _chunks_generator nmr mask = Some chunks ->
  NoDup (map fst chunks) /\
  (forall s e, (s, e) ∈ chunks -> 0 <= s < e /\ e <= count_nonzero mask).
Proof.
  intros Hn Hg. rewrite chunks_generator_eq in Hg by done. injection Hg as <-.
  pose proof (count_nonzero_nonneg mask).
  split.
  - rewrite map_map. simpl. apply NoDup_fmap_2; [|apply NoDup_seq].
    intros i j Hij. simpl in Hij. nia.
  - intros s e Hin. apply list_elem_of_fmap in Hin as [i [Hi Hin]].
    injection Hi as -> ->. apply elem_of_seq in Hin.
    assert (Z.of_nat i * nmr < count_nonzero mask).
    { apply nr_chunks_spec; lia. }
    lia.
Qed.

Lemma chunk_indices_nonempty (mask : list bool) (s e : Z) :
  0 <= s < e -> e <= count_nonzero mask ->
  Nat.ltb 0 (length (py_slice (arange (count_nonzero mask)) s e)) = true.
Proof.
  intros Hs He. apply Nat.ltb_lt. unfold py_slice, arange.
  rewrite length_take, length_drop, length_map, length_seq. lia.
Qed.

Lemma run_ok_clears {R} (w : Worker R) (nmr_voxels : Z) (mask : list bool)
    (output_path : path) (recalculate : bool) (st0 st1 : state) (r : R) :
  run w nmr_voxels mask output_path recalculate st0 = (Some r, st1) ->
  forall q, q ∈ st_fs st1 -> is_prefix (output_path ++ ["chunks"]) q = false.
Proof.
  intros Hrun q Hq. unfold run in Hrun.
  set (cd := output_path ++ ["chunks"]) in *.
  unfold bind at 1 in Hrun.
  destruct (_prepare_chunk_dir cd recalculate st0) as [[[]|] st_p]; [|discriminate].
  destruct (_chunks_generator nmr_voxels mask) as [chunks|]; [|discriminate].
  unfold bind at 1 in Hrun.
  destruct (chunk_loop w mask cd recalculate chunks st_p) as [[[]|] st_n]; [|discriminate].
  unfold_m. simpl in Hrun.
  destruct (combine w (st_fs st_n) output_path cd) as [[r'|] fs']; simpl in Hrun;
    [|discriminate].
  case_bool_decide; [|discriminate]. injection Hrun as _ <-.
  simpl in Hq. by apply elem_of_rmtree_fs in Hq as [_ ?].
Qed.

Section Fresh.
Context {R : Type} (w : Worker R) (mask : list bool) (cd : path).
Context (Hreads : output_exists_reads_dir w) (Hadds : process_adds_within w)
  (Hret : process_returns w).

Lemma step_fresh (s e : Z) (st : state) :
  0 <= s < e -> e <= count_nonzero mask ->
  (forall q, q ∈ st_fs st -> is_prefix (cd ++ [chunk_dir_name s e]) q = false) ->
  exists st', chunk_step w mask cd false (s, e) st = (Some tt, st') /\
    st_log st' = st_log st ++ [EvProcess (cd ++ [chunk_dir_name s e])] /\
    (forall q, q ∈ st_fs st' -> q ∈ st_fs st \/
       is_prefix (cd ++ [chunk_dir_name s e]) q = true \/
       is_prefix q (cd ++ [chunk_dir_name s e]) = true).
Proof.
  intros Hs He Hfree. destruct st as [fs lg]. simpl in Hfree.
  set (d := cd ++ [chunk_dir_name s e]) in *.
  unfold chunk_step. rewrite chunk_indices_nonempty by done.
  unfold _run_on_slice. fold d. unfold_m. simpl.
  rewrite (Hreads fs d Hfree). simpl.
  pose proof (Hret fs (chunk_mask mask s e) d) as Hok.
  pose proof (Hadds fs (chunk_mask mask s e) d) as Had.
  destruct (process w fs (chunk_mask mask s e) d) as [ok fs'] eqn:Ep.
  simpl in Hok, Had. subst ok. simpl.
  eexists; split; [reflexivity|]. simpl. split; [done|].
  intros q [Hq|Hq]%elem_of_app.
  - apply elem_of_ancestors in Hq as [Hq _].
    apply is_prefix_snoc in Hq as [Hq| ->]; [by right; right|].
    right. left. apply is_prefix_spec. by exists ["__mask.nii.gz"].
  - destruct (is_prefix d q) eqn:Edq; [by right; left|].
    destruct (Had q Edq Hq) as [?|?]; [by left|by right; right].
Qed.

Lemma loop_fresh (l : list (Z * Z)) (st : state) :
  NoDup (map fst l) ->
  (forall s e, (s, e) ∈ l -> 0 <= s < e /\ e <= count_nonzero mask) ->
  (forall s e, (s, e) ∈ l -> forall q, q ∈ st_fs st ->
     is_prefix (cd ++ [chunk_dir_name s e]) q = false) ->
  exists st', chunk_loop w mask cd false l st = (Some tt, st') /\
    st_log st' = st_log st ++ map (fun c => EvProcess (cd ++ [chunk_dir_name c.1 c.2])) l.
Proof.
  revert st. induction l as [|[s e] rest IH]; intros st Hnd Hb Hfree.
  - exists st. simpl. by rewrite app_nil_r.
  - simpl in Hnd. apply NoDup_cons in Hnd as [Hnin Hnd].
    destruct (Hb s e ltac:(by left)) as [Hs He].
    destruct (step_fresh s e st Hs He (Hfree s e ltac:(by left)))
      as (st1 & Hstep & Hlog & Hfs).
    destruct (IH st1 Hnd) as (st' & Hl & Hlog').
    + intros s' e' Hin. apply Hb. by right.
    + intros s' e' Hin q Hq.
      destruct (is_prefix (cd ++ [chunk_dir_name s' e']) q) eqn:E; [|done].
      exfalso.
      assert (s' <> s) as Hne.
      { intros ->. apply Hnin. apply list_elem_of_fmap. by exists (s, e'). }
      destruct (Hfs q Hq) as [Hq'|[Hq'|Hq']].
      * rewrite (Hfree s' e' ltac:(by right) q Hq') in E. discriminate.
      * pose proof (slice_dirs_same _ _ _ _ E Hq') as Hn.
        apply chunk_dir_name_inj in Hn as [? _]. done.
      * pose proof (is_prefix_trans _ _ _ E Hq') as E'.
        pose proof (slice_dirs_same _ _ _ _ E' (is_prefix_refl _)) as Hn.
        apply chunk_dir_name_inj in Hn as [? _]. done.
    + exists st'. cbn [chunk_loop]. unfold bind at 1. rewrite Hstep.
      split; [done|]. rewrite Hlog', Hlog, <- app_assoc. done.
Qed.

End Fresh.

Lemma chunks_dir_nonempty (output_path : path) : output_path ++ ["chunks"] <> [].
Proof. destruct output_path; discriminate. Qed.

Lemma chunk_dirs_distinct (cd : path) (pre post : list (Z * Z)) (s e s' e' : Z) (q : path) :
  NoDup (map fst (pre ++ (s, e) :: post)) -> (s', e') ∈ pre ->
  is_prefix (cd ++ [chunk_dir_name s' e']) q = true ->
  is_prefix (cd ++ [chunk_dir_name s e]) q = false.
Proof.
  intros Hnd Hin Hq. destruct (is_prefix (cd ++ [chunk_dir_name s e]) q) eqn:E; [|done].
  pose proof (slice_dirs_same _ _ _ _ Hq E) as Hn.
  apply chunk_dir_name_inj in Hn as [-> ->].
  rewrite map_app in Hnd. apply NoDup_app in Hnd as (_ & Hdis & _).
  exfalso. apply (Hdis s).
  - apply list_elem_of_fmap. by exists (s, e).
  - simpl. left.
Qed.

(** C3 *)
(** ** C3: a run that raises leaves the chunks directory in place.
    When the worker's [process] raises on a chunk, the exception ends
    the run right there: that was the last worker call (no retry, no
    merge) and every file of the chunk directories completed before it
    is still on disk. When [combine] raises, every file under the chunks
    directory is still on disk. The chunks directory is removed only
    after [combine] returned. *)
Theorem run_failure_keeps_chunks {R} (w : Worker R) (nmr_voxels : Z)
    (mask : list bool) (output_path : path) (recalculate : bool)
    (chunks : list (Z * Z)) (st0 st1 : state)
    (Hkeep : process_keeps_outside w) (Hckeep : combine_keeps_chunks w)
    (Hn : 0 < nmr_voxels)
    (Hgen : _chunks_generator nmr_voxels mask = Some chunks)
    (Hrun : run w nmr_voxels mask output_path recalculate st0 = (None, st1)) :
  let cd := output_path ++ ["chunks"] in
  cd ∈ st_fs st1 /\
  ((exists pre s e post st_p st_pre,
      chunks = pre ++ (s, e) :: post /\
      _prepare_chunk_dir cd recalculate st0 = (Some tt, st_p) /\
      chunk_loop w mask cd recalculate pre st_p = (Some tt, st_pre) /\
      st_log st1 = st_log st_pre ++ [EvProcess (cd ++ [chunk_dir_name s e])] /\
      (forall s' e', (s', e') ∈ pre -> forall q, q ∈ st_fs st_pre ->
         is_prefix (cd ++ [chunk_dir_name s' e']) q = true -> q ∈ st_fs st1))
   \/
   (exists st_p st_n,
      _prepare_chunk_dir cd recalculate st0 = (Some tt, st_p) /\
      chunk_loop w mask cd recalculate chunks st_p = (Some tt, st_n) /\
      st_log st1 = st_log st_n ++ [EvCombine] /\
      (forall q, q ∈ st_fs st_n -> is_prefix cd q = true -> q ∈ st_fs st1))).
Proof.
  intros cd.
  destruct (chunks_generator_props nmr_voxels mask chunks Hn Hgen) as [Hnd _].
  destruct (prepare_spec cd recalculate st0 (chunks_dir_nonempty output_path))
    as (st_p & Hp & Hcdp & _ & _).
  assert (Hcd_loop : forall l st res st', chunk_loop w mask cd recalculate l st = (res, st') ->
            cd ∈ st_fs st -> cd ∈ st_fs st').
  { intros l st res st' Hl Hin. eapply loop_keeps; [done|exact Hl|done|].
    intros s e _. apply slice_dir_not_prefix_of_parent, is_prefix_refl. }
  unfold run in Hrun. fold cd in Hrun.
  unfold bind at 1 in Hrun. rewrite Hp, Hgen in Hrun.
  unfold bind at 1 in Hrun.
  destruct (chunk_loop w mask cd recalculate chunks st_p) as [[[]|] st_n] eqn:Hl.
  - pose proof (Hcd_loop _ _ _ _ Hl Hcdp) as Hcdn.
    unfold_m. simpl in Hrun.
    destruct (combine w (st_fs st_n) output_path cd) as [[r|] fs'] eqn:Ec;
      simpl in Hrun.
    + assert (cd ∈ fs') as Hin.
      { assert (fs' = (combine w (st_fs st_n) output_path cd).2) as -> by (rewrite Ec; done).
        apply Hckeep; [apply is_prefix_refl|done]. }
      rewrite bool_decide_eq_true_2 in Hrun by done. discriminate.
    + injection Hrun as <-. simpl.
      assert (forall q, is_prefix cd q = true -> q ∈ st_fs st_n -> q ∈ fs') as Hk'.
      { intros q Hq Hin.
        assert (fs' = (combine w (st_fs st_n) output_path cd).2) as -> by (rewrite Ec; done).
        by apply Hckeep. }
      split; [apply Hk'; [apply is_prefix_refl|done]|].
      right. exists st_p, st_n. repeat split; try done.
      intros q Hq Hpq. by apply Hk'.
  - injection Hrun as <-.
    apply loop_fail in Hl as (pre & [s e] & post & st_pre & -> & Hpre & Hstep).
    pose proof (Hcd_loop _ _ _ _ Hpre Hcdp) as Hcdpre.
    split.
    + eapply step_keeps; [done|exact Hstep|done|].
      apply slice_dir_not_prefix_of_parent, is_prefix_refl.
    + left. exists pre, s, e, post, st_p, st_pre.
      split; [done|]. split; [done|]. split; [done|]. split.
      * by apply step_fail_log in Hstep.
      * intros s' e' Hin q Hq Hpq. eapply step_keeps; [done|exact Hstep|done|].
        by eapply chunk_dirs_distinct.
Qed.

(** C2 *)
(** ** C2 (amended): in a run without [recalculate], a chunk for which the
    worker reports [output_exists] for its chunk directory is skipped:
    [process] is not called and nothing changes. A successful run ends by
    deleting the chunks directory, so a second run without [recalculate]
    after it finds no chunk directory and, for a worker whose
    [output_exists] reads the chunk directory, calls [process] once on
    every chunk, in order, before merging. *)
Theorem chunk_skip_and_rerun {R} (w : Worker R) (nmr_voxels : Z)
    (mask : list bool) (output_path : path) (chunks : list (Z * Z))
    (st0 st1 : state) (r : R)
    (Hreads : output_exists_reads_dir w) (Hadds : process_adds_within w)
    (Hret : process_returns w)
    (Hn : 0 < nmr_voxels)
    (Hgen : _chunks_generator nmr_voxels mask = Some chunks)
    (Hrun1 : run w nmr_voxels mask output_path false st0 = (Some r, st1)) :
  (forall slices_dir s e m st,
     output_exists w (st_fs st) (slices_dir ++ [chunk_dir_name s e]) = true ->
     _run_on_slice w slices_dir false s e m st = (Some tt, st)) /\
  st_log (run w nmr_voxels mask output_path false st1).2 =
    st_log st1 ++
    map (fun c => EvProcess (output_path ++ ["chunks"] ++ [chunk_dir_name c.1 c.2])) chunks ++
    [EvCombine].
Proof.
  split.
  { intros slices_dir s e m st Hex. unfold _run_on_slice. unfold_m. simpl.
    destruct st as [fs lg]. simpl in *. by rewrite Hex. }
  set (cd := output_path ++ ["chunks"]).
  pose proof (run_ok_clears w nmr_voxels mask output_path false st0 st1 r Hrun1)
    as Hclear. fold cd in Hclear.
  destruct (chunks_generator_props nmr_voxels mask chunks Hn Hgen) as [Hnd Hb].
  destruct (prepare_spec cd false st1 (chunks_dir_nonempty output_path))
    as (st_p & Hp & _ & Hlogp & Hfsp).
  destruct (loop_fresh w mask cd Hreads Hadds Hret chunks st_p Hnd Hb) as (st_n & Hl & Hlogn).
  { intros s e _ q Hq.
    destruct (is_prefix (cd ++ [chunk_dir_name s e]) q) eqn:E; [|done].
    destruct (Hfsp q Hq) as [Hq'|Hq'].
    - pose proof (Hclear q Hq') as Hc.
      assert (is_prefix cd q = true) as Hc'.
      { eapply is_prefix_trans; [|exact E]. apply is_prefix_spec. by eexists. }
      congruence.
    - by rewrite slice_dir_not_prefix_of_parent in E. }
  unfold run. fold cd. unfold bind at 1. rewrite Hp, Hgen.
  unfold bind at 1. rewrite Hl. unfold_m. simpl.
  destruct (combine w (st_fs st_n) output_path cd) as [[r'|] fs']; simpl;
    [destruct (bool_decide _); simpl|];
    rewrite Hlogn, Hlogp, <- app_assoc; f_equal; f_equal;
    apply map_ext; intros c; unfold cd; by rewrite <- app_assoc.
Qed.

(** C2 *)
(** ** C2 (counterexample): two runs without [recalculate] on a mask with
    one active voxel: the second run calls [process] again on the chunk
    [0_1], since the first run deleted the chunks directory. *)
Lemma rerun_calls_process :
  let st1 := (run maps_worker 40000 [true] ["out"] false (mkState [] [])).2 in
  (run maps_worker 40000 [true] ["out"] false (mkState [] [])).1 = Some 4 /\
  st_log (run maps_worker 40000 [true] ["out"] false st1).2 =
    st_log st1 ++ [EvProcess ["out"; "chunks"; "0_1"]; EvCombine].
Proof. vm_compute. split; reflexivity. Qed.

(** *** Witnesses *)

Lemma maps_worker_reads_dir : output_exists_reads_dir maps_worker.
Proof.
  intros fs d Hfree. simpl. apply bool_decide_eq_false_2. intros Hin.
  specialize (Hfree _ Hin). rewrite (proj2 (is_prefix_spec d (d ++ ["maps"])))
    in Hfree; [discriminate|by eexists].
Qed.

Lemma ancestors_adds_within (fs : fs_t) (d : path) (x : string) (q : path) :
  is_prefix d q = false -> q ∈ ancestors (d ++ [x]) ++ fs ->
  q ∈ fs \/ is_prefix q d = true.
Proof.
  intros Hnp [Hq|Hq]%elem_of_app; [|by left].
  apply elem_of_ancestors in Hq as [Hq _].
  apply is_prefix_snoc in Hq as [Hq| ->]; [by right|].
  rewrite (proj2 (is_prefix_spec d (d ++ [x]))) in Hnp; [discriminate|by eexists].
Qed.

Lemma maps_worker_adds_within : process_adds_within maps_worker.
Proof. intros fs m d q. apply ancestors_adds_within. Qed.

Lemma maps_worker_returns : process_returns maps_worker.
Proof. done. Qed.

Lemma maps_worker_failing_on_keeps (bad : path) :
  process_keeps_outside (maps_worker_failing_on bad).
Proof.
  intros fs m d q _ Hq. simpl. case_bool_decide; simpl;
    apply elem_of_app; by right.
Qed.

Lemma maps_worker_failing_on_combine_keeps (bad : path) :
  combine_keeps_chunks (maps_worker_failing_on bad).
Proof. intros fs o cd q _ Hq. simpl. apply elem_of_app. by right. Qed.

Lemma chunks_generator_partition_witness :
  0 < 2 /\ exists chunks,
    _chunks_generator 2 [true; false; true; true; true] = Some chunks /\
    Z.of_nat (length chunks) = 2.
Proof.
  split; [lia|].
  destruct (chunks_generator_partition 2 [true; false; true; true; true]
              ltac:(lia)) as (chunks & Hc & Hlen & _).
  exists chunks. split; [exact Hc|]. rewrite Hlen. vm_compute. reflexivity.
Defined.

Lemma chunk_skip_and_rerun_witness :
  let st1 := (run maps_worker 40000 [true] ["out"] false (mkState [] [])).2 in
  output_exists_reads_dir maps_worker /\ process_adds_within maps_worker /\
  process_returns maps_worker /\ 0 < 40000 /\
  _chunks_generator 40000 [true] = Some [(0, 1)] /\
  run maps_worker 40000 [true] ["out"] false (mkState [] []) = (Some 4, st1) /\
  st_log (run maps_worker 40000 [true] ["out"] false st1).2 =
    st_log st1 ++
    map (fun c => EvProcess (["out"] ++ ["chunks"] ++ [chunk_dir_name c.1 c.2]))
      [(0, 1)] ++ [EvCombine].
Proof.
  intros st1.
  assert (Hg : _chunks_generator 40000 [true] = Some [(0, 1)])
    by (vm_compute; reflexivity).
  assert (Hr : run maps_worker 40000 [true] ["out"] false (mkState [] []) = (Some 4, st1))
    by (vm_compute; reflexivity).
  split; [exact maps_worker_reads_dir|].
  split; [exact maps_worker_adds_within|].
  split; [exact maps_worker_returns|].
  split; [lia|]. split; [exact Hg|]. split; [exact Hr|].
  exact (proj2 (chunk_skip_and_rerun maps_worker 40000 [true] ["out"] [(0, 1)]
                  (mkState [] []) st1 4 maps_worker_reads_dir
                  maps_worker_adds_within maps_worker_returns ltac:(lia) Hg Hr)).
Defined.

Lemma run_failure_keeps_chunks_witness :
  let w := maps_worker_failing_on ["out"; "chunks"; "1_2"] in
  let st1 := (run w 1 [true; true; true] ["out"] false (mkState [] [])).2 in
  process_keeps_outside w /\ combine_keeps_chunks w /\ 0 < 1 /\
  _chunks_generator 1 [true; true; true] = Some [(0, 1); (1, 2); (2, 3)] /\
  run w 1 [true; true; true] ["out"] false (mkState [] []) = (None, st1) /\
  ["out"; "chunks"] ∈ st_fs st1.
Proof.
  intros w st1.
  assert (Hg : _chunks_generator 1 [true; true; true] = Some [(0, 1); (1, 2); (2, 3)])
    by (vm_compute; reflexivity).
  assert (Hr : run w 1 [true; true; true] ["out"] false (mkState [] []) = (None, st1))
    by (vm_compute; reflexivity).
  split; [apply maps_worker_failing_on_keeps|].
  split; [apply maps_worker_failing_on_combine_keeps|].
  split; [lia|]. split; [exact Hg|]. split; [exact Hr|].
  exact (proj1 (run_failure_keeps_chunks w 1 [true; true; true] ["out"] false
                  _ (mkState [] []) st1 (maps_worker_failing_on_keeps _)
                  (maps_worker_failing_on_combine_keeps _) ltac:(lia) Hg Hr)).
Defined.

End VoxelRangeFacts.

Module CascadeNamesFacts.
Import CascadeNames.

Section Resolution.
Context (get_model : registry).

(** Every memo entry lists exactly the leaves of its key. *)
Definition cache_ok (cache : gmap string (list string)) : Prop :=
  forall k v, cache !! k = Some v -> forall x, x ∈ v <-> leaf_of get_model k x.

Definition rec_sound
    (rec : gmap string (list string) -> list string ->
           option (list string * gmap string (list string))) : Prop :=
  forall cache names r cache', rec cache names = Some (r, cache') -> cache_ok cache ->
    cache_ok cache' /\ forall x, x ∈ r <-> exists n, n ∈ names /\ leaf_of get_model n x.

Lemma leaf_of_single n x :
  get_model n = SingleModel -> leaf_of get_model n x <-> x = n.
Proof.
  intros Hn. split.
  - inversion 1; subst; [done|congruence].
  - intros ->. by constructor.
Qed.

Lemma leaf_of_cascade n sub_names x :
  get_model n = CascadeModel sub_names ->
  leaf_of get_model n x <-> exists s, s ∈ sub_names /\ leaf_of get_model s x.
Proof.
  intros Hn. split.
  - inversion 1; subst; [congruence|].
    match goal with H : get_model n = CascadeModel ?l |- _ =>
      rewrite Hn in H; injection H as <- end.
    eauto.
  - intros (s & Hs & Hx). by eapply leaf_cascade.
Qed.

Lemma cache_ok_insert cache k v :
  cache_ok cache -> (forall x, x ∈ v <-> leaf_of get_model k x) ->
  cache_ok (<[k := v]> cache).
Proof.
  intros Hc Hv k' v' Hk'. destruct (decide (k = k')) as [<-|Hne].
  - rewrite lookup_insert_eq in Hk'. by injection Hk' as <-.
  - rewrite lookup_insert_ne in Hk' by done. by apply Hc.
Qed.

Lemma get_names_loop_sound rec (Hrec : rec_sound rec) names cache acc r cache' :
  get_names_loop get_model rec cache names acc = Some (r, cache') -> cache_ok cache ->
  cache_ok cache' /\
  forall x, x ∈ r <-> x ∈ acc \/ exists n, n ∈ names /\ leaf_of get_model n x.
Proof.
  revert cache acc. induction names as [|n rest IH]; intros cache acc Hl Hc; simpl in Hl.
  - injection Hl as <- <-. split; [done|]. intros x.
    split; [by left|]. intros [?|(n & Hn & _)]; [done|]. by apply elem_of_nil in Hn.
  - destruct (cache !! n) as [cached|] eqn:Hn.
    + destruct (IH _ _ Hl Hc) as [Hc' Hr]. split; [done|]. intros x.
      rewrite Hr, elem_of_app, (Hc n cached Hn x). split.
      * intros [[?|?]|(m & Hm & ?)]; [by left|right; exists n; split; [by left|done]|].
        right. exists m. split; [by right|done].
      * intros [?|(m & [->|Hm]%elem_of_cons & ?)]; [by left; left|by left; right|].
        right. by exists m.
    + destruct (get_model n) as [|sub_names] eqn:Hm.
      * destruct (IH _ _ Hl) as [Hc' Hr].
        { apply cache_ok_insert; [done|]. intros x.
          rewrite leaf_of_single by done. by rewrite list_elem_of_singleton. }
        split; [done|]. intros x. rewrite Hr, elem_of_app, list_elem_of_singleton.
        split.
        -- intros [[?| ->]|(m & Hm' & ?)]; [by left|right|right].
           ++ exists n. split; [by left|]. by constructor.
           ++ exists m. split; [by right|done].
        -- intros [?|(m & [->|Hm']%elem_of_cons & Hx)]; [by left; left| |].
           ++ left. right. by apply leaf_of_single in Hx.
           ++ right. by exists m.
      * destruct (rec cache sub_names) as [[resolved cache1]|] eqn:Hr1; [|discriminate].
        destruct (Hrec _ _ _ _ Hr1 Hc) as [Hc1 Hres].
        assert (Hres' : forall x, x ∈ resolved <-> leaf_of get_model n x).
        { intros x. rewrite Hres, (leaf_of_cascade n sub_names x Hm). done. }
        destruct (IH _ _ Hl) as [Hc' Hr]; [by apply cache_ok_insert|].
        split; [done|]. intros x. rewrite Hr, elem_of_app, Hres'. split.
        -- intros [[?|?]|(m & Hm' & ?)]; [by left|right|right].
           ++ exists n. split; [by left|done].
           ++ exists m. split; [by right|done].
        -- intros [?|(m & [->|Hm']%elem_of_cons & Hx)]; [by left; left|by left; right|].
           right. by exists m.
Qed.

Lemma get_names_sound depth : rec_sound (get_names get_model depth).
Proof.
  induction depth as [|d IH]; intros cache names r cache' Hg Hc; simpl in Hg.
  - discriminate.
  - destruct (get_names_loop_sound _ IH names cache [] r cache' Hg Hc) as [Hc' Hr].
    split; [done|]. intros x. rewrite Hr. split.
    + intros [Hx|?]; [by apply elem_of_nil in Hx|done].
    + by right.
Qed.

Section Acyclic.
Context (rank : string -> nat) (Hacyc : acyclic get_model rank).

Lemma get_names_loop_total rec d names cache acc :
  (forall cache' names', (forall n, n ∈ names' -> (rank n < d)%nat) ->
     exists r c, rec cache' names' = Some (r, c)) ->
  (forall n, n ∈ names -> (rank n < S d)%nat) ->
  exists r c, get_names_loop get_model rec cache names acc = Some (r, c).
Proof.
  intros Hrec. revert cache acc.
  induction names as [|n rest IH]; intros cache acc Hb; simpl.
  - by eexists _, _.
  - assert (forall m, m ∈ rest -> (rank m < S d)%nat) as Hb'
      by (intros m Hm; apply Hb; by right).
    destruct (cache !! n); [by apply IH|].
    destruct (get_model n) as [|sub_names] eqn:Hm; [by apply IH|].
    destruct (Hrec cache sub_names) as (r & c & ->); [|by apply IH].
    intros s Hs. specialize (Hacyc n sub_names Hm s Hs).
    specialize (Hb n ltac:(by left)). lia.
Qed.

Lemma get_names_total d cache names :
  (forall n, n ∈ names -> (rank n < d)%nat) ->
  exists r c, get_names get_model (S d) cache names = Some (r, c).
Proof.
  revert cache names. induction d as [|d IH]; intros cache names Hb; simpl.
  - destruct names as [|n ?]; [by eexists _, _|].
    specialize (Hb n ltac:(by left)). lia.
  - apply (get_names_loop_total _ d); [|done].
    intros cache' names' Hb'. by apply IH.
Qed.

End Acyclic.
End Resolution.

Lemma example_acyclic : acyclic example_registry example_rank.
Proof.
  intros n sub_names Hn s Hs. unfold example_registry in Hn.
  destruct (bool_decide (n = "A (Cascade)")) eqn:EA.
  - apply bool_decide_eq_true in EA as ->. injection Hn as <-.
    apply elem_of_cons in Hs as [->|Hs]; [vm_compute; lia|].
    apply list_elem_of_singleton in Hs as ->. vm_compute; lia.
  - destruct (bool_decide (n = "C (Cascade)")) eqn:EC; [|discriminate].
    apply bool_decide_eq_true in EC as ->. injection Hn as <-.
    apply elem_of_cons in Hs as [->|Hs]; [vm_compute; lia|].
    apply list_elem_of_singleton in Hs as ->. vm_compute; lia.
Qed.

(** C4: over an acyclic model registry, with a recursion bound above the
    rank of the input names, [_get_single_model_names] (which starts from
    an empty memo) returns a duplicate-free list whose elements are exactly
    the leaf names reachable from the input names. *)
Theorem single_model_names_spec (get_model : registry) (rank : string -> nat)
    (Hacyc : acyclic get_model rank) (model_names : list string) (depth : nat)
    (Hdepth : forall n, n ∈ model_names -> (rank n < depth)%nat) :
  exists names,
    _get_single_model_names get_model (S depth) model_names = Some names /\
    NoDup names /\
    forall x, x ∈ names <-> exists n, n ∈ model_names /\ leaf_of get_model n x.
Proof.
  destruct (get_names_total get_model rank Hacyc depth ∅ model_names Hdepth)
    as (r & c & Hg).
  destruct (get_names_sound get_model (S depth) ∅ model_names r c Hg) as [_ Hr].
  { intros k v Hk. by rewrite lookup_empty in Hk. }
  exists (remove_dups r). unfold _get_single_model_names. rewrite Hg.
  split; [done|]. split; [apply NoDup_remove_dups|].
  intros x. by rewrite elem_of_remove_dups.
Qed.

(** The spec's example: resolving ["A (Cascade)"] gives the two leaves D
    and B, and the theorem applies to it. *)
Lemma single_model_names_spec_witness :
  _get_single_model_names example_registry 4 ["A (Cascade)"] = Some ["D"; "B"] /\
  exists names,
    _get_single_model_names example_registry 4 ["A (Cascade)"] = Some names /\
    NoDup names /\
    forall x, x ∈ names <->
      exists n, n ∈ ["A (Cascade)"] /\ leaf_of example_registry n x.
Proof.
  split; [vm_compute; reflexivity|].
  apply (single_model_names_spec example_registry example_rank example_acyclic
           ["A (Cascade)"] 3).
  intros n Hn. apply list_elem_of_singleton in Hn as ->. vm_compute. lia.
Defined.

End CascadeNamesFacts.

Module SelectionFacts.
Import Selection.
Local Open Scope Z_scope.

Lemma int_loop_past_end (z : Z) (ind : nat) (subjects : list subject) :
  Z.of_nat ind + Z.of_nat (length subjects) <= z ->
  int_loop (Some z) ind subjects = Some None.
Proof.
  revert ind. induction subjects as [|s rest IH]; intros ind Hz; simpl; [done|].
  simpl in Hz. destruct (Z.eqb_spec (Z.of_nat ind) z); [lia|].
  apply IH. lia.
Qed.

(** C5: with [indices=None] and a non-empty [subject_ids], and a
    [start_from] that resolves without error, [get_selection] returns
    every subject whose id is listed, whatever its position relative to
    the start: [start_from] is not applied. *)
Theorem selection_ignores_start_from (self : SelectedSubjects)
    (subjects : list subject) (ids : list string) (sp : option nat)
    (Hidx : indices self = None) (Hids : subject_ids self = Some ids)
    (Hne : ids <> []) (Hsp : _get_starting_pos self subjects = Some sp) :
  get_selection self subjects =
    Some (List.filter (fun s => bool_decide (s ∈ ids)) subjects).
Proof.
  unfold get_selection. rewrite Hsp, Hidx, Hids.
  destruct ids as [|i ids']; [done|]. reflexivity.
Qed.

(** The spec's example: subjects s1..s4, [subject_ids=["s1","s3"]] and
    [start_from="s2"] select ["s1"; "s3"], not ["s3"]. *)
Lemma selection_ignores_start_from_witness :
  get_selection (mkSelectedSubjects (Some ["s1"; "s3"]) None (StartStr "s2"))
    ["s1"; "s2"; "s3"; "s4"] = Some ["s1"; "s3"] /\
  get_selection (mkSelectedSubjects (Some ["s1"; "s3"]) None (StartStr "s2"))
    ["s1"; "s2"; "s3"; "s4"] =
    Some (List.filter (fun s => bool_decide (s ∈ ["s1"; "s3"])) ["s1"; "s2"; "s3"; "s4"]).
Proof.
  split; [vm_compute; reflexivity|].
  apply (selection_ignores_start_from
           (mkSelectedSubjects (Some ["s1"; "s3"]) None (StartStr "s2"))
           ["s1"; "s2"; "s3"; "s4"] ["s1"; "s3"] (Some 1%nat));
    [reflexivity|reflexivity|discriminate|vm_compute; reflexivity].
Defined.

(** C10: with no [indices], no [subject_ids] and an integer [start_from]
    at or past the end of a non-empty subject list, [_get_starting_pos]
    returns [None] and [get_selection] returns the whole list. *)
Theorem start_past_end_selects_all (subjects : list subject) (z : Z)
    (Hne : subjects <> []) (Hz : Z.of_nat (length subjects) <= z) :
  _get_starting_pos (mkSelectedSubjects None None (StartInt z)) subjects = Some None /\
  get_selection (mkSelectedSubjects None None (StartInt z)) subjects = Some subjects.
Proof.
  assert (Hp : _get_starting_pos (mkSelectedSubjects None None (StartInt z)) subjects
               = Some None).
  { apply int_loop_past_end. lia. }
  split; [done|]. unfold get_selection. by rewrite Hp.
Qed.

Lemma start_past_end_selects_all_witness :
  _get_starting_pos (mkSelectedSubjects None None (StartInt 4)) ["s1"; "s2"; "s3"; "s4"]
    = Some None /\
  get_selection (mkSelectedSubjects None None (StartInt 4)) ["s1"; "s2"; "s3"; "s4"]
    = Some ["s1"; "s2"; "s3"; "s4"].
Proof.
  apply start_past_end_selects_all; [discriminate|simpl; lia].
Defined.

End SelectionFacts.

Module ProfilesFacts.
Import Profiles.

Lemma run_query_ensure q p : run_query q p = ensure_subjects p.
Proof. by destruct q. Qed.

Lemma ensure_config p :
  _get_subjects (ensure_subjects p) = _get_subjects p /\
  _root_dir (ensure_subjects p) = _root_dir p /\
  _output_base_dir (ensure_subjects p) = _output_base_dir p /\
  _output_sub_dir (ensure_subjects p) = _output_sub_dir p.
Proof. unfold ensure_subjects. by destruct (subjects_found_truthy p). Qed.

(** Once the memo holds a non-empty list, no query calls the hook. *)
Lemma nonempty_memo_reused qs p :
  subjects_found_truthy p = true -> run_queries qs p = p.
Proof.
  intros Ht. unfold run_queries. induction qs as [|q qs IH]; [done|].
  simpl. rewrite run_query_ensure. unfold ensure_subjects. by rewrite Ht.
Qed.

(** A discovery that finds subjects runs once for any number of queries. *)
Lemma nonempty_discovery_once qs p :
  subjects_found_truthy p = false -> discovered p <> [] ->
  discovery_calls (run_queries (QGetSubjects :: qs) p) = S (discovery_calls p).
Proof.
  intros Hf Hne. unfold run_queries. cbn [fold_left].
  rewrite run_query_ensure.
  assert (Ht : subjects_found_truthy (ensure_subjects p) = true).
  { unfold ensure_subjects. rewrite Hf. unfold subjects_found_truthy. simpl.
    unfold discovered in Hne. destruct (_get_subjects p _ _ _); done. }
  pose proof (nonempty_memo_reused qs _ Ht) as Hr. unfold run_queries in Hr. rewrite Hr.
  unfold ensure_subjects. by rewrite Hf.
Qed.

(** The [output_base_dir] and [output_sub_dir] setters clear the memo. *)
Lemma setters_invalidate p b s :
  _subjects_found (set_output_base_dir b p) = None /\
  _subjects_found (set_output_sub_dir s p) = None.
Proof. done. Qed.

(** C6: when the discovery hook finds no subject (as the default
    [_get_subjects] does), the memo is never considered filled: every one
    of [get_subjects], [profile_suitable] and [get_subjects_count] calls
    the hook again, so [n] queries run the discovery [n] times. *)
Theorem empty_discovery_reruns (qs : list query) (p : SimpleBatchProfile)
    (Hempty : discovered p = []) (Hnot : subjects_found_truthy p = false) :
  discovery_calls (run_queries qs p) = (discovery_calls p + length qs)%nat.
Proof.
  unfold run_queries. revert p Hempty Hnot.
  induction qs as [|q qs IH]; intros p Hempty Hnot; cbn [fold_left length]; [lia|].
  rewrite run_query_ensure.
  destruct (ensure_config p) as (Hg & Hr & Hb & Hs).
  rewrite IH.
  - unfold ensure_subjects. rewrite Hnot. simpl. lia.
  - unfold discovered. by rewrite Hg, Hr, Hb, Hs.
  - unfold ensure_subjects. rewrite Hnot. unfold subjects_found_truthy. simpl.
    unfold discovered in Hempty. by rewrite Hempty.
Qed.

(** [profile_suitable()] then [get_subjects_count()] on a fresh profile
    with the default hook run the discovery twice. *)
Lemma empty_discovery_reruns_witness :
  discovery_calls
    (run_queries [QProfileSuitable; QGetSubjectsCount] (new_profile (fun _ _ _ => [])))
  = 2%nat /\
  discovery_calls
    (run_queries [QProfileSuitable; QGetSubjectsCount] (new_profile (fun _ _ _ => [])))
  = (discovery_calls (new_profile (fun _ _ _ => [])) + 2)%nat.
Proof.
  split; [vm_compute; reflexivity|].
  apply (empty_discovery_reruns [QProfileSuitable; QGetSubjectsCount]
           (new_profile (fun _ _ _ => []))); reflexivity.
Defined.

Lemma bound_count_pos df c :
  bound_suitable df c = true -> (0 < bound_count df c)%nat.
Proof.
  unfold bound_suitable, bound_count, profile_suitable, get_subjects_count. simpl.
  set (p1 := ensure_subjects (set_root_dir df c)).
  intros Hs. apply bool_decide_eq_true in Hs.
  assert (Ht : subjects_found_truthy p1 = true).
  { unfold found in Hs. unfold subjects_found_truthy.
    destruct (_subjects_found p1) as [[|x l]|]; simpl in Hs; [lia|done|lia]. }
  unfold ensure_subjects at 1. rewrite Ht. simpl. exact Hs.
Qed.

Lemma best_profile_loop_step df c rest best bc :
  best_profile_loop df (c :: rest) best bc =
  if bound_suitable df c then
    if bool_decide (bc < bound_count df c)%nat
    then best_profile_loop df rest (Some (bound_after df c)) (bound_count df c)
    else best_profile_loop df rest best bc
  else best_profile_loop df rest best bc.
Proof.
  unfold bound_suitable, bound_count, bound_after. simpl.
  destruct (profile_suitable (set_root_dir df c)) as [ok c2]. simpl.
  destruct ok; [|done]. by destruct (get_subjects_count c2).
Qed.

(** The loop either keeps its current best, every suitable profile
    having a count at most [bc], or ends on the first profile of largest
    count, which beats [bc]. *)
Lemma best_profile_loop_spec df cs best bc :
  (best_profile_loop df cs best bc = best /\
   forall j c, cs !! j = Some c -> bound_suitable df c = true ->
     (bound_count df c <= bc)%nat) \/
  (exists i c, cs !! i = Some c /\ bound_suitable df c = true /\
     best_profile_loop df cs best bc = Some (bound_after df c) /\
     (bc < bound_count df c)%nat /\
     (forall j c', cs !! j = Some c' -> bound_suitable df c' = true ->
        (bound_count df c' <= bound_count df c)%nat) /\
     (forall j c', (j < i)%nat -> cs !! j = Some c' -> bound_suitable df c' = true ->
        (bound_count df c' < bound_count df c)%nat)).
Proof.
  revert best bc. induction cs as [|c rest IH]; intros best bc.
  { left. split; [done|]. intros j c Hj. by rewrite lookup_nil in Hj. }
  rewrite best_profile_loop_step.
  destruct (bound_suitable df c) eqn:Es;
    [destruct (bool_decide_reflect (bc < bound_count df c)%nat) as [Hlt|Hge]|].
  - destruct (IH (Some (bound_after df c)) (bound_count df c))
      as [[Hr Hall]|(i & ci & Hi & Hsi & Hr & Hlt' & Hmax & Hfirst)].
    + right. exists 0%nat, c. do 3 (split; [done|]). split; [done|]. split.
      * intros [|j] c' Hj Hs'; simpl in Hj; [injection Hj as <-; lia|].
        exact (Hall j c' Hj Hs').
      * intros j c' Hj. lia.
    + right. exists (S i), ci. do 3 (split; [done|]). split; [lia|]. split.
      * intros [|j] c' Hj Hs'; simpl in Hj; [injection Hj as <-; lia|].
        exact (Hmax j c' Hj Hs').
      * intros [|j] c' Hji Hj Hs'; simpl in Hj; [injection Hj as <-; lia|].
        apply (Hfirst j c'); [lia|done|done].
  - destruct (IH best bc) as [[Hr Hall]|(i & ci & Hi & Hsi & Hr & Hlt' & Hmax & Hfirst)].
    + left. split; [done|].
      intros [|j] c' Hj Hs'; simpl in Hj; [injection Hj as <-; lia|].
      exact (Hall j c' Hj Hs').
    + right. exists (S i), ci. do 4 (split; [done|]). split.
      * intros [|j] c' Hj Hs'; simpl in Hj; [injection Hj as <-; lia|].
        exact (Hmax j c' Hj Hs').
      * intros [|j] c' Hji Hj Hs'; simpl in Hj; [injection Hj as <-; lia|].
        apply (Hfirst j c'); [lia|done|done].
  - destruct (IH best bc) as [[Hr Hall]|(i & ci & Hi & Hsi & Hr & Hlt' & Hmax & Hfirst)].
    + left. split; [done|].
      intros [|j] c' Hj Hs'; simpl in Hj; [injection Hj as <-; congruence|].
      exact (Hall j c' Hj Hs').
    + right. exists (S i), ci. do 4 (split; [done|]). split.
      * intros [|j] c' Hj Hs'; simpl in Hj; [injection Hj as <-; congruence|].
        exact (Hmax j c' Hj Hs').
      * intros [|j] c' Hji Hj Hs'; simpl in Hj; [injection Hj as <-; congruence|].
        apply (Hfirst j c'); [lia|done|done].
Qed.

(** C7: [get_best_batch_profile] binds [data_folder] to each profile and
    returns [None] exactly when no profile is suitable; otherwise it
    returns (the bound object of) a suitable profile whose subject count
    is the largest, and every suitable profile before it has a strictly
    smaller count, so that on a tie the first one wins. *)
Theorem best_batch_profile_spec (data_folder : string) (crawlers : list SimpleBatchProfile) :
  (get_best_batch_profile data_folder crawlers = None <->
   forall j c, crawlers !! j = Some c -> bound_suitable data_folder c = false) /\
  (forall p, get_best_batch_profile data_folder crawlers = Some p ->
   exists i c, crawlers !! i = Some c /\ bound_suitable data_folder c = true /\
     p = bound_after data_folder c /\
     (forall j c', crawlers !! j = Some c' -> bound_suitable data_folder c' = true ->
        (bound_count data_folder c' <= bound_count data_folder c)%nat) /\
     (forall j c', (j < i)%nat -> crawlers !! j = Some c' ->
        bound_suitable data_folder c' = true ->
        (bound_count data_folder c' < bound_count data_folder c)%nat)).
Proof.
  unfold get_best_batch_profile.
  destruct (best_profile_loop_spec data_folder crawlers None 0)
    as [[Hr Hall]|(i & c & Hi & Hs & Hr & _ & Hmax & Hfirst)]; rewrite Hr.
  - split; [|discriminate]. split; [|done].
    intros _ j c Hj. destruct (bound_suitable data_folder c) eqn:Es; [|done].
    pose proof (Hall j c Hj Es). pose proof (bound_count_pos data_folder c Es). lia.
  - split.
    + split; [discriminate|]. intros Hnone. by rewrite (Hnone i c Hi) in Hs.
    + intros p Hp. injection Hp as <-. exists i, c. eauto.
Qed.

(** The spec's example: of two suitable profiles with 3 and 5 subjects,
    the one with 5 is returned; of two with one subject each, the first. *)
Lemma best_batch_profile_example :
  option_map found
    (get_best_batch_profile "data"
       [new_profile (fun _ _ _ => ["a"; "b"; "c"]);
        new_profile (fun _ _ _ => ["a"; "b"; "c"; "d"; "e"])])
  = Some ["a"; "b"; "c"; "d"; "e"] /\
  option_map found
    (get_best_batch_profile "data"
       [new_profile (fun _ _ _ => ["a"]); new_profile (fun _ _ _ => ["b"])])
  = Some ["a"] /\
  get_best_batch_profile "data" [new_profile (fun _ _ _ => [])] = None.
Proof. vm_compute. auto. Qed.

End ProfilesFacts.

Module CollectFacts.
Import Collect.

(** C8: when the destination [<output_dir>/<subject_id>/<model_name>] is a
    regular file (and the subject directory exists), [copy_function] does
    not remove it: the file is no link, so [shutil.rmtree] is called on
    it and raises, whatever [move] and [symlink] are. *)
Theorem copy_onto_file_raises (output_dir : path) (symlink move : bool)
    (info : subject_output_info) (fs : fs_t)
    (Hdir : os_path_exists fs (output_dir ++ [subject_id info]) = true)
    (Hfile : fs !! ((output_dir ++ [subject_id info]) ++ [model_name info] : path) = Some File) :
  copy_function output_dir symlink move info fs = None.
Proof.
  unfold copy_function. rewrite Hdir. cbv beta iota zeta.
  unfold os_path_exists at 1, os_path_islink, shutil_rmtree. rewrite Hfile. reflexivity.
Qed.

(** An output tree [out/s1/M] that is a regular file: collecting the
    output [data/s1/m] of model [M] raises instead of replacing it. *)
Lemma copy_onto_file_raises_witness :
  let fs : fs_t :=
    list_to_map [(["data"], Dir); (["data"; "s1"], Dir); (["data"; "s1"; "m"], Dir);
                 (["data"; "s1"; "m"; "f.nii"], File); (["out"], Dir);
                 (["out"; "s1"], Dir); (["out"; "s1"; "M"], File)] in
  copy_function ["out"] true true (mkSubjectOutputInfo "s1" "M" ["data"; "s1"; "m"]) fs
    = None.
Proof.
  intros fs.
  apply (copy_onto_file_raises ["out"] true true
           (mkSubjectOutputInfo "s1" "M" ["data"; "s1"; "m"]) fs);
    vm_compute; reflexivity.
Defined.

(** The other cases of the cleanup and the precedence of [move]: a
    directory at the destination is removed, and with [move] and
    [symlink] both set the source tree is moved (it no longer exists at
    its old place, and no link is made). *)
Lemma copy_replaces_dir_and_moves :
  let fs : fs_t :=
    list_to_map [(["data"], Dir); (["data"; "s1"], Dir); (["data"; "s1"; "m"], Dir);
                 (["data"; "s1"; "m"; "f.nii"], File); (["out"], Dir);
                 (["out"; "s1"], Dir); (["out"; "s1"; "M"], Dir);
                 (["out"; "s1"; "M"; "old"], File)] in
  option_map (fun fs' => (fs' !! ["data"; "s1"; "m"], fs' !! ["out"; "s1"; "M"],
                          fs' !! ["out"; "s1"; "M"; "f.nii"], fs' !! ["out"; "s1"; "M"; "old"]))
    (copy_function ["out"] true true (mkSubjectOutputInfo "s1" "M" ["data"; "s1"; "m"]) fs)
  = Some (None, Some Dir, Some File, None).
Proof. vm_compute. reflexivity. Qed.

End CollectFacts.

Module PyPathFacts.
Import PyPath.

Lemma has_slash_app a b : has_slash (String.append a b) = has_slash a || has_slash b.
Proof.
  induction a as [|c a IH]; [done|]. simpl. rewrite IH. by destruct (bool_decide _).
Qed.

Lemma has_slash_starts s : has_slash s = false -> starts_with_slash s = false.
Proof. destruct s as [|c s]; [done|]. simpl. by destruct (bool_decide _). Qed.

Lemma ends_with_slash_app a b :
  b <> String.EmptyString -> ends_with_slash (String.append a b) = ends_with_slash b.
Proof.
  intros Hb. induction a as [|c a IH]; [done|]. simpl.
  destruct (String.append a b) eqn:E.
  - exfalso. destruct a; simpl in E; [exact (Hb E)|discriminate].
  - rewrite <- IH. done.
Qed.

Lemma has_slash_ends s : has_slash s = false -> ends_with_slash s = false.
Proof.
  induction s as [|c s IH]; [done|]. simpl. intros H.
  apply orb_false_iff in H as [Hc Hs]. destruct s; [done|]. by apply IH.
Qed.

Lemma has_slash_substring n m s :
  has_slash s = false -> has_slash (String.substring n m s) = false.
Proof.
  revert n m. induction s as [|c s IH]; intros n m H; destruct n, m; simpl; try done.
  - simpl in H. apply orb_false_iff in H as [Hc Hs]. rewrite Hc. simpl. by apply IH.
  - simpl in H. apply orb_false_iff in H as [Hc Hs]. by apply IH.
  - simpl in H. apply orb_false_iff in H as [Hc Hs]. by apply IH.
Qed.

Lemma has_slash_basename_go s cur :
  has_slash cur = false -> has_slash (basename_go s cur) = false.
Proof.
  revert cur. induction s as [|c s IH]; intros cur H; [done|]. simpl.
  destruct (bool_decide (c = "/"%char)) eqn:Ec; apply IH; [done|].
  rewrite has_slash_app, H. simpl. by rewrite Ec.
Qed.

Lemma has_slash_strip_suffix suf b r :
  strip_suffix suf b = Some r -> has_slash b = false -> has_slash r = false.
Proof.
  unfold strip_suffix. case_match; [|discriminate].
  intros [= <-] Hb. by apply has_slash_substring.
Qed.

Lemma has_slash_split_image_path_name p : has_slash (split_image_path_name p) = false.
Proof.
  unfold split_image_path_name.
  pose proof (has_slash_basename_go p "" eq_refl) as Hb.
  destruct (strip_suffix ".nii.gz" _) as [r|] eqn:E1;
    [by eapply has_slash_strip_suffix|].
  destruct (strip_suffix ".nii" _) as [r|] eqn:E2; simpl;
    [by eapply has_slash_strip_suffix|done].
Qed.

(** One step of [os.path.join] on a non-empty path without a trailing
    separator and a relative component. *)
Lemma os_path_join_step a b rest :
  a <> String.EmptyString -> ends_with_slash a = false -> starts_with_slash b = false ->
  os_path_join a (b :: rest) = os_path_join (String.append a (String.append "/" b)) rest.
Proof.
  intros Ha Hae Hb. simpl. rewrite Hb, Hae. by rewrite bool_decide_eq_false_2.
Qed.

Lemma append_nonempty a b : a <> String.EmptyString -> String.append a b <> String.EmptyString.
Proof. destruct a; [done|]. discriminate. Qed.

End PyPathFacts.

Module OutputDirFacts.
Import Profiles PyPath PyPathFacts.

Lemma str_app_cons x a b : String.append (String.String x a) b = String.String x (String.append a b).
Proof. reflexivity. Qed.

Lemma str_app_assoc a b c :
  String.append (String.append a b) c = String.append a (String.append b c).
Proof. induction a as [|x a IH]; [reflexivity|]. rewrite !str_app_cons. by rewrite IH. Qed.

Lemma str_app_nil_r a : String.append a String.EmptyString = a.
Proof. induction a as [|x a IH]; [reflexivity|]. rewrite str_app_cons. by rewrite IH. Qed.

(** Joining a separator-free component to a non-empty path without a
    trailing separator. *)
Lemma join_component a b :
  a <> String.EmptyString -> ends_with_slash a = false -> has_slash b = false ->
  os_path_join a [b] = String.append a (String.append "/" b).
Proof.
  intros Ha Hae Hb. rewrite os_path_join_step; [done|done|done|].
  by apply has_slash_starts.
Qed.

Lemma join_component_shape a b :
  a <> String.EmptyString -> b <> String.EmptyString -> has_slash b = false ->
  String.append a (String.append "/" b) <> String.EmptyString /\
  ends_with_slash (String.append a (String.append "/" b)) = false.
Proof.
  intros Ha Hb Hbs. split; [by apply append_nonempty|].
  rewrite ends_with_slash_app by discriminate.
  change (String.append "/" b) with (String.String "/"%char b). simpl.
  destruct b as [|c b]; [done|]. by apply has_slash_ends.
Qed.

(** C9: with no [subject_base_dir], a non-empty root without a trailing
    separator, and a subject id, [output_base_dir] and [output_sub_dir]
    free of separators, [_get_subject_output_dir] is
    [root/subject_id/output_base_dir], followed by [/output_sub_dir] when
    that is set and non-empty, followed by the mask's base name without
    its [.nii]/[.nii.gz] extension when [append_mask_name_to_output_sub_dir]
    holds and a non-empty mask file name is given. *)
Theorem subject_output_dir_spec (self : SimpleBatchProfile) (subject_id : string)
    (mask_fname : option string)
    (Hroot : _root_dir self <> String.EmptyString)
    (Hroot_end : ends_with_slash (_root_dir self) = false)
    (Hsid : subject_id <> String.EmptyString) (Hsid_sep : has_slash subject_id = false)
    (Hbase : _output_base_dir self <> String.EmptyString)
    (Hbase_sep : has_slash (_output_base_dir self) = false)
    (Hsub_sep : forall s, _output_sub_dir self = Some s -> has_slash s = false) :
  _get_subject_output_dir self subject_id mask_fname None =
    _root_dir self +:+ "/" +:+ subject_id +:+ "/" +:+ _output_base_dir self +:+
    (if str_truthy (_output_sub_dir self)
     then "/" +:+ default "" (_output_sub_dir self) else "") +:+
    (if _append_mask_name_to_output_sub_dir self && str_truthy mask_fname
     then "/" +:+ split_image_path_name (default "" mask_fname) else "").
Proof.
  unfold _get_subject_output_dir.
  set (r := _root_dir self). set (b := _output_base_dir self).
  rewrite os_path_join_step; [|done|done|by apply has_slash_starts].
  destruct (join_component_shape r subject_id Hroot Hsid Hsid_sep) as [Hne1 Hend1].
  rewrite (join_component _ b Hne1 Hend1 Hbase_sep).
  destruct (join_component_shape _ b Hne1 Hbase Hbase_sep) as [Hne2 Hend2].
  set (d0 := String.append (String.append r (String.append "/" subject_id))
                           (String.append "/" b)) in *.
  assert (Hsub : exists sub_part,
    (match _output_sub_dir self with
     | Some s => if str_truthy (Some s) then os_path_join d0 [s] else d0
     | None => d0
     end) = String.append d0 sub_part /\
    sub_part = (if str_truthy (_output_sub_dir self)
                then "/" +:+ default "" (_output_sub_dir self) else "") /\
    String.append d0 sub_part <> String.EmptyString /\
    ends_with_slash (String.append d0 sub_part) = false).
  { destruct (_output_sub_dir self) as [[|c s]|] eqn:Es; simpl.
    - exists "". rewrite str_app_nil_r. done.
    - exists ("/" +:+ String.String c s).
      pose proof (Hsub_sep _ eq_refl) as Hs.
      split; [exact (join_component _ _ Hne2 Hend2 Hs)|]. split; [done|].
      exact (join_component_shape _ (String.String c s) Hne2 ltac:(discriminate) Hs).
    - exists "". rewrite str_app_nil_r. done. }
  destruct Hsub as (sub_part & -> & Hsp & Hne3 & Hend3).
  assert (Hmask :
    (match mask_fname with
     | Some m =>
         if _append_mask_name_to_output_sub_dir self && str_truthy mask_fname
         then os_path_join (String.append d0 sub_part) [split_image_path_name m]
         else String.append d0 sub_part
     | None => String.append d0 sub_part
     end) =
    String.append (String.append d0 sub_part)
      (if _append_mask_name_to_output_sub_dir self && str_truthy mask_fname
       then "/" +:+ split_image_path_name (default "" mask_fname) else "")).
  { destruct mask_fname as [m|]; cbv beta iota.
    - destruct (_append_mask_name_to_output_sub_dir self && str_truthy (Some m)).
      + apply join_component; [done|done|apply has_slash_split_image_path_name].
      + by rewrite str_app_nil_r.
    - rewrite andb_false_r. by rewrite str_app_nil_r. }
  rewrite Hmask, <- Hsp. subst d0. by rewrite !str_app_assoc.
Qed.

(** The spec's example: with the defaults and root [/data], subject
    [subj1] and mask [brain_mask.nii.gz] give [/data/subj1/output/brain_mask]. *)
Lemma subject_output_dir_spec_witness :
  _get_subject_output_dir (set_root_dir "/data" (new_profile (fun _ _ _ => [])))
    "subj1" (Some "brain_mask.nii.gz") None = "/data/subj1/output/brain_mask" /\
  _get_subject_output_dir (set_root_dir "/data" (new_profile (fun _ _ _ => [])))
    "subj1" (Some "brain_mask.nii.gz") None =
    "/data" +:+ "/" +:+ "subj1" +:+ "/" +:+ "output" +:+
    (if str_truthy (None : option string) then "/" +:+ default "" None else "") +:+
    (if true && str_truthy (Some "brain_mask.nii.gz")
     then "/" +:+ split_image_path_name (default "" (Some "brain_mask.nii.gz")) else "").
Proof.
  split; [vm_compute; reflexivity|].
  apply (subject_output_dir_spec (set_root_dir "/data" (new_profile (fun _ _ _ => [])))
           "subj1" (Some "brain_mask.nii.gz"));
    try discriminate; try reflexivity.
Defined.

End OutputDirFacts.

Module VoxelRangeMore.
Import VoxelRange VoxelRangeFacts.
Local Open Scope Z_scope.

(** A chunk size of zero: [range(0, total, 0)] raises [ValueError]. *)
Lemma chunks_generator_zero mask : _chunks_generator 0 mask = None.
Proof. reflexivity. Qed.


(** [VoxelRange.run] with [nmr_voxels = 0] raises [ValueError] before any
    chunk is processed and before [combine]: the run records no event. *)
Theorem run_zero_chunk_size_raises {R} (w : Worker R) (mask : list bool)
    (output_path : path) (recalculate : bool) (st : state) :
  (run w 0 mask output_path recalculate st).1 = None /\
  st_log (run w 0 mask output_path recalculate st).2 = st_log st.
Proof.
  destruct (prepare_spec (output_path ++ ["chunks"]) recalculate st
              (chunks_dir_nonempty output_path)) as (st' & Hp & _ & Hlog & _).
  unfold run, bind. rewrite Hp, chunks_generator_zero. split; [done|exact Hlog].
Qed.



(** With [recalculate], [_run_on_slice] never skips a chunk for a worker
    whose [output_exists] reads the chunk directory: the directory is
    removed first, and [process] is called (recorded before it runs). *)
Theorem recalculate_always_processes {R} (w : Worker R)
    (Hreads : output_exists_reads_dir w) (slices_dir : path) (s e : Z)
    (tmp_mask : list bool) (st : state)
    (Hwf : slices_dir ++ [chunk_dir_name s e] ∈ st_fs st \/
           forall q, q ∈ st_fs st -> is_prefix (slices_dir ++ [chunk_dir_name s e]) q = false) :
  st_log (_run_on_slice w slices_dir true s e tmp_mask st).2 =
    st_log st ++ [EvProcess (slices_dir ++ [chunk_dir_name s e])].
Proof.
  destruct st as [fs lg]. simpl in Hwf.
  set (sd := slices_dir ++ [chunk_dir_name s e]) in *.
  unfold _run_on_slice. fold sd. unfold_m. simpl.
  destruct (decide (sd ∈ fs)) as [Hin|Hin].
  - rewrite !bool_decide_eq_true_2 by done. cbn.
    rewrite Hreads; [cbn|].
    + destruct (process w _ tmp_mask sd) as [[] ?]; done.
    + intros q Hq. by apply elem_of_rmtree_fs in Hq as [_ ?].
  - rewrite bool_decide_eq_false_2 by done. cbn.
    rewrite Hreads; [cbn|].
    + destruct (process w _ tmp_mask sd) as [[] ?]; done.
    + destruct Hwf as [?|Hwf]; [done|exact Hwf].
Qed.

Lemma recalculate_always_processes_witness :
  let st := mkState [["o"]; ["o"; "chunks"]; ["o"; "chunks"; "0_1"];
                     ["o"; "chunks"; "0_1"; "maps"]] [] in
  st_log (_run_on_slice maps_worker ["o"; "chunks"] true 0 1 [true] st).2 =
    st_log st ++ [EvProcess (["o"; "chunks"] ++ [chunk_dir_name 0 1])].
Proof.
  intros st.
  apply (recalculate_always_processes maps_worker maps_worker_reads_dir
           ["o"; "chunks"] 0 1 [true] st).
  left. apply list_elem_of_In. vm_compute. right; right; left. reflexivity.
Defined.

(** Two chunks write to the same directory only when they have the same
    start and end: ['{start}_{end}'] is injective on integers. *)
Theorem chunk_dir_names_injective (s e s' e' : Z)
    (Heq : chunk_dir_name s e = chunk_dir_name s' e') :
  s = s' /\ e = e'.
Proof. exact (chunk_dir_name_inj s e s' e' Heq). Qed.

Lemma chunk_dir_names_injective_witness :
  chunk_dir_name (-5) 40000 = chunk_dir_name (-5) 40000 /\ -5 = -5 /\ 40000 = 40000.
Proof.
  split; [reflexivity|].
  apply (chunk_dir_names_injective (-5) 40000 (-5) 40000). reflexivity.
Defined.

(** A run that returns a result leaves nothing under [output/chunks]. *)
Theorem run_success_removes_chunks {R} (w : Worker R) (nmr_voxels : Z) (mask : list bool)
    (output_path : path) (recalculate : bool) (st0 st1 : state) (r : R)
    (Hrun : run w nmr_voxels mask output_path recalculate st0 = (Some r, st1)) :
  forall q, q ∈ st_fs st1 -> is_prefix (output_path ++ ["chunks"]) q = false.
Proof. exact (run_ok_clears w nmr_voxels mask output_path recalculate st0 st1 r Hrun). Qed.

Lemma run_success_removes_chunks_witness :
  exists st1, run maps_worker 1 [true; false; true] ["out"] false (mkState [] []) = (Some 7, st1) /\
    forall q, q ∈ st_fs st1 -> is_prefix (["out"] ++ ["chunks"]) q = false.
Proof.
  exists (run maps_worker 1 [true; false; true] ["out"] false (mkState [] [])).2.
  split; [vm_compute; reflexivity|].
  apply (run_success_removes_chunks maps_worker 1 [true; false; true] ["out"] false
           (mkState [] []) _ 7).
  vm_compute. reflexivity.
Defined.

End VoxelRangeMore.

Module CascadeNamesMore.
Import CascadeNames.

Section Cycles.
Context (get_model : registry) (cyc : list string) (Hcyc : closed_cascades get_model cyc).

Definition cache_free (cache : gmap string (list string)) : Prop :=
  forall k, k ∈ cyc -> cache !! k = None.

Lemma get_names_loop_cyc
    (rec : gmap string (list string) -> list string ->
           option (list string * gmap string (list string)))
    (Hrec : forall cache names r c, cache_free cache -> rec cache names = Some (r, c) ->
              cache_free c /\ forall n, n ∈ names -> n ∉ cyc)
    names cache acc r c :
  cache_free cache -> get_names_loop get_model rec cache names acc = Some (r, c) ->
  cache_free c /\ forall n, n ∈ names -> n ∉ cyc.
Proof.
  revert cache acc. induction names as [|n rest IH]; intros cache acc Hf Hl; simpl in Hl.
  - injection Hl as <- <-. split; [done|]. intros n Hn. by apply elem_of_nil in Hn.
  - assert (Hcons : n ∉ cyc -> (forall m, m ∈ rest -> m ∉ cyc) ->
                    forall m, m ∈ n :: rest -> m ∉ cyc)
      by (intros ? ? m [->|?]%elem_of_cons; auto).
    destruct (cache !! n) as [cached|] eqn:Hn.
    + destruct (IH _ _ Hf Hl) as [Hc Hr]. split; [done|]. apply Hcons; [|done].
      intros Hin. by rewrite (Hf n Hin) in Hn.
    + destruct (get_model n) as [|sub_names] eqn:Hm.
      * assert (Hnc : n ∉ cyc).
        { intros Hin. destruct (Hcyc n Hin) as (sub & Hsub & _). congruence. }
        assert (Hf' : cache_free (<[n := [n]]> cache)).
        { intros k Hk. rewrite lookup_insert_ne; [by apply Hf|]. by intros ->. }
        destruct (IH _ _ Hf' Hl) as [Hc Hr]. split; [done|]. by apply Hcons.
      * destruct (rec cache sub_names) as [[resolved c1]|] eqn:Hr1; [|discriminate].
        destruct (Hrec _ _ _ _ Hf Hr1) as [Hf1 Hsub].
        assert (Hnc : n ∉ cyc).
        { intros Hin. destruct (Hcyc n Hin) as (sub & Hsub' & s & Hs & Hsc).
          rewrite Hm in Hsub'. injection Hsub' as <-. exact (Hsub s Hs Hsc). }
        assert (Hf' : cache_free (<[n := resolved]> c1)).
        { intros k Hk. rewrite lookup_insert_ne; [by apply Hf1|]. by intros ->. }
        destruct (IH _ _ Hf' Hl) as [Hc Hr]. split; [done|]. by apply Hcons.
Qed.

Lemma get_names_cyc depth cache names r c :
  cache_free cache -> get_names get_model depth cache names = Some (r, c) ->
  cache_free c /\ forall n, n ∈ names -> n ∉ cyc.
Proof.
  revert cache names r c. induction depth as [|d IH]; intros cache names r c Hf Hg;
    simpl in Hg; [discriminate|].
  exact (get_names_loop_cyc _ IH names cache [] r c Hf Hg).
Qed.

End Cycles.

(** A cascade on a cycle never resolves: [_get_single_model_names] fails
    (the Python recursion ends in a [RecursionError]) at every recursion
    bound, as soon as one input name lies on a cycle of cascades. *)
Theorem cyclic_cascade_never_resolves (get_model : registry) (cyc : list string)
    (Hcyc : closed_cascades get_model cyc) (model_names : list string)
    (Hin : exists n, n ∈ model_names /\ n ∈ cyc) (depth : nat) :
  _get_single_model_names get_model depth model_names = None.
Proof.
  unfold _get_single_model_names.
  destruct (get_names get_model depth ∅ model_names) as [[r c]|] eqn:Hg; [|done].
  destruct (get_names_cyc get_model cyc Hcyc depth ∅ model_names r c) as [_ Hnot];
    [intros k _; apply lookup_empty|done|].
  destruct Hin as (n & Hn & Hc). by destruct (Hnot n Hn).
Qed.

Lemma cyclic_cascade_never_resolves_witness :
  _get_single_model_names self_registry 50 ["A"; "X (Cascade)"] = None.
Proof.
  apply (cyclic_cascade_never_resolves self_registry ["X (Cascade)"]).
  - intros n Hn. apply list_elem_of_singleton in Hn as ->.
    exists ["B"; "X (Cascade)"]. split; [vm_compute; reflexivity|].
    exists "X (Cascade)". split; [right; left|left].
  - exists "X (Cascade)". split; [right; left|left].
Defined.

End CascadeNamesMore.

Module SelectionMore.
Import Selection.
Local Open Scope Z_scope.




Lemma str_loop_first s ind pre post :
  s ∉ pre -> str_loop s ind (pre ++ s :: post) = Some (ind + length pre)%nat.
Proof.
  revert ind. induction pre as [|x pre IH]; intros ind Hn; simpl.
  - rewrite bool_decide_eq_true_2 by done. f_equal. lia.
  - rewrite bool_decide_eq_false_2; [|intros ->; apply Hn; left].
    rewrite IH; [f_equal; lia|]. intros ?; apply Hn; by right.
Qed.

Lemma int_loop_in z ind subjects :
  Z.of_nat ind <= z < Z.of_nat ind + Z.of_nat (length subjects) ->
  int_loop (Some z) ind subjects = Some (Some (Z.to_nat z)).
Proof.
  revert ind. induction subjects as [|x l IH]; intros ind Hz; simpl in *; [lia|].
  destruct (Z.eqb_spec (Z.of_nat ind) z).
  - subst. by rewrite Nat2Z.id.
  - apply IH. lia.
Qed.

Lemma int_loop_below z ind subjects :
  z < Z.of_nat ind -> int_loop (Some z) ind subjects = Some None.
Proof.
  revert ind. induction subjects as [|x l IH]; intros ind Hz; simpl; [done|].
  destruct (Z.eqb_spec (Z.of_nat ind) z); [lia|]. apply IH. lia.
Qed.

Lemma int_loop_above z ind subjects :
  Z.of_nat ind + Z.of_nat (length subjects) <= z -> int_loop (Some z) ind subjects = Some None.
Proof.
  revert ind. induction subjects as [|x l IH]; intros ind Hz; simpl in *; [done|].
  destruct (Z.eqb_spec (Z.of_nat ind) z); [lia|]. apply IH. lia.
Qed.

(** The position an integer [z] resolves to. *)
Lemma int_loop_spec z subjects :
  int_loop (Some z) 0 subjects =
  Some (if bool_decide (0 <= z < Z.of_nat (length subjects)) then Some (Z.to_nat z) else None).
Proof.
  case_bool_decide.
  - apply int_loop_in. simpl. lia.
  - destruct (Z.ltb_spec z 0); [apply int_loop_below; simpl; lia|].
    apply int_loop_above. simpl. lia.
Qed.



Lemma select_indices_some idx p ind subjects :
  select_indices idx (Some p) ind subjects =
  Some (map snd (List.filter
    (fun ix => bool_decide (Z.of_nat ix.1 ∈ idx) && bool_decide (p <= ix.1)%nat)
    (zip (seq ind (length subjects)) subjects))).
Proof.
  revert ind. induction subjects as [|x l IH]; intros ind; simpl; [done|].
  rewrite IH. case_bool_decide; simpl; [|done].
  case_bool_decide; done.
Qed.

Lemma select_indices_none_raises idx ind subjects i :
  (i < length subjects)%nat -> Z.of_nat (ind + i) ∈ idx ->
  select_indices idx None ind subjects = None.
Proof.
  revert ind i. induction subjects as [|x l IH]; intros ind i Hi Hin; simpl in *; [lia|].
  destruct i as [|i].
  - rewrite Nat.add_0_r in Hin. by rewrite bool_decide_eq_true_2.
  - rewrite (IH (S ind) i); [| lia | by replace (S ind + i)%nat with (ind + S i)%nat by lia].
    by destruct (if bool_decide _ then _ else _).
Qed.



(** With only an integer [start_from], [get_selection] returns the
    subjects from that position when it is a valid position, and all the
    subjects otherwise: a negative integer is not counted from the end. *)
Theorem int_start_selection (z : Z) (subjects : list subject) :
  get_selection (mkSelectedSubjects None None (StartInt z)) subjects =
  Some (if bool_decide (0 <= z < Z.of_nat (length subjects))
        then drop (Z.to_nat z) subjects else subjects).
Proof.
  unfold get_selection, _get_starting_pos; simpl.
  rewrite int_loop_spec. by case_bool_decide.
Qed.

(** With only a string [start_from] naming a subject, [get_selection]
    returns the subjects from the first one with that id. *)
Theorem id_start_selection (s : string) (pre post : list subject)
    (Hfirst : s ∉ pre) :
  get_selection (mkSelectedSubjects None None (StartStr s)) (pre ++ s :: post) =
  Some (s :: post).
Proof.
  unfold get_selection, _get_starting_pos; simpl.
  rewrite str_loop_first by done. simpl.
  by rewrite drop_app_length.
Qed.

Lemma id_start_selection_witness :
  ~ "s2" ∈ ["s1"] /\
  get_selection (mkSelectedSubjects None None (StartStr "s2")) (["s1"] ++ ["s2"; "s3"]) =
  Some ["s2"; "s3"].
Proof.
  assert (Hn : ~ "s2" ∈ ["s1"]).
  { intros H. apply elem_of_cons in H as [H|H]; [discriminate|]. by apply elem_of_nil in H. }
  split; [exact Hn|]. exact (id_start_selection "s2" ["s1"] ["s3"] Hn).
Defined.

(** With a non-empty [indices] and no [start_from], [get_selection]
    keeps the subjects whose position is listed, in the order of the
    subjects (not of [indices], and without repeating a subject whose
    position is listed twice), then keeps those whose id is listed when
    [subject_ids] is non-empty. *)
Theorem indices_selection (ids : option (list string)) (idx : list Z) (subjects : list subject)
    (Hidx : idx <> []) :
  get_selection (mkSelectedSubjects ids (Some idx) StartNone) subjects =
  let by_index := map snd (List.filter (fun ix => bool_decide (Z.of_nat ix.1 ∈ idx))
                             (zip (seq 0 (length subjects)) subjects)) in
  Some (match ids with
        | Some ((_ :: _) as l) => List.filter (fun s => bool_decide (s ∈ l)) by_index
        | _ => by_index
        end).
Proof.
  unfold get_selection, _get_starting_pos; simpl.
  destruct idx as [|i idx']; [done|].
  rewrite select_indices_some.
  assert (Hf : List.filter (fun ix : nat * subject => bool_decide (Z.of_nat ix.1 ∈ i :: idx') && bool_decide (0 <= ix.1)%nat)
                 (zip (seq 0 (length subjects)) subjects) =
               List.filter (fun ix : nat * subject => bool_decide (Z.of_nat ix.1 ∈ i :: idx'))
                 (zip (seq 0 (length subjects)) subjects)).
  { apply List.filter_ext. intros [k x]; simpl.
    destruct (bool_decide (Z.of_nat k ∈ i :: idx')); simpl; [|done].
    reflexivity. }
  rewrite Hf. destruct ids as [[|j l]|]; done.
Qed.

Lemma indices_selection_witness :
  get_selection (mkSelectedSubjects None (Some [3; 0; 3]) StartNone) ["s0"; "s1"; "s2"; "s3"] =
  Some ["s0"; "s3"].
Proof.
  rewrite (indices_selection None [3; 0; 3] ["s0"; "s1"; "s2"; "s3"]); [|discriminate].
  vm_compute. reflexivity.
Defined.

(** An integer [start_from] that is not a valid position leaves the start
    at [None]; then any listed index that is a valid position makes the
    comparison [ind >= starting_pos] raise a [TypeError]. *)
Theorem indices_with_unresolved_start_raises (ids : option (list string)) (idx : list Z)
    (z : Z) (subjects : list subject) (i : nat)
    (Hz : ~ (0 <= z < Z.of_nat (length subjects)))
    (Hi : (i < length subjects)%nat) (Hin : Z.of_nat i ∈ idx) :
  get_selection (mkSelectedSubjects ids (Some idx) (StartInt z)) subjects = None.
Proof.
  unfold get_selection, _get_starting_pos; simpl.
  rewrite int_loop_spec, bool_decide_eq_false_2 by done.
  destruct idx as [|k idx']; [by apply elem_of_nil in Hin|].
  by rewrite (select_indices_none_raises _ 0 _ i).
Qed.

Lemma indices_with_unresolved_start_raises_witness :
  get_selection (mkSelectedSubjects None (Some [1]) (StartInt 5)) ["s0"; "s1"] = None.
Proof.
  apply (indices_with_unresolved_start_raises None [1] 5 ["s0"; "s1"] 1).
  - simpl. lia.
  - simpl. lia.
  - simpl. by left.
Defined.

End SelectionMore.

Module ProfilesMore.
Import Profiles.

Lemma set_root_dir_truthy r p :
  subjects_found_truthy (set_root_dir r p) = subjects_found_truthy p.
Proof. done. Qed.

Lemma set_root_dir_same r p : _root_dir p = r -> set_root_dir r p = p.
Proof. destruct p; simpl. by intros ->. Qed.

Lemma ensure_truthy_of_found p :
  found (ensure_subjects p) <> [] -> subjects_found_truthy (ensure_subjects p) = true.
Proof.
  unfold found, subjects_found_truthy.
  destruct (_subjects_found (ensure_subjects p)) as [[|]|]; simpl; done.
Qed.

(** [set_root_dir] keeps a non-empty memo: after re-binding a profile
    that already found subjects to another root, every query answers
    with the subjects of the old root and never runs the discovery. *)
Theorem set_root_dir_keeps_stale_subjects (qs : list query) (r : string)
    (p : SimpleBatchProfile) (Ht : subjects_found_truthy p = true) :
  let p' := run_queries qs (set_root_dir r p) in
  _root_dir p' = r /\ found p' = found p /\ discovery_calls p' = discovery_calls p.
Proof.
  simpl. rewrite ProfilesFacts.nonempty_memo_reused by (by rewrite set_root_dir_truthy).
  done.
Qed.

(** A profile bound to ["d1"] whose discovery lists the root: bound
    again to ["d2"], it still answers ["d1"]. *)
Lemma set_root_dir_keeps_stale_subjects_witness :
  let p := run_queries [QGetSubjects] (set_root_dir "d1" (new_profile (fun root _ _ => [root]))) in
  subjects_found_truthy p = true /\
  discovered (set_root_dir "d2" p) = ["d2"] /\
  (let p' := run_queries [QGetSubjects; QGetSubjectsCount] (set_root_dir "d2" p) in
   _root_dir p' = "d2" /\ found p' = found p /\ discovery_calls p' = discovery_calls p) /\
  found p = ["d1"].
Proof.
  cbv zeta. split; [reflexivity|]. split; [reflexivity|]. split; [|reflexivity].
  apply (set_root_dir_keeps_stale_subjects [QGetSubjects; QGetSubjectsCount] "d2"
           (run_queries [QGetSubjects]
              (set_root_dir "d1" (new_profile (fun root _ _ => [root]))))).
  reflexivity.
Defined.

(** After the [output_base_dir] or [output_sub_dir] setter, the next
    query runs the discovery again, with the new setting. *)
Theorem setters_force_rediscovery (q : query) (p : SimpleBatchProfile)
    (b : string) (sd : option string) :
  (let p' := run_query q (set_output_base_dir b p) in
   discovery_calls p' = S (discovery_calls p) /\
   found p' = _get_subjects p (_root_dir p) b (_output_sub_dir p)) /\
  (let p' := run_query q (set_output_sub_dir sd p) in
   discovery_calls p' = S (discovery_calls p) /\
   found p' = _get_subjects p (_root_dir p) (_output_base_dir p) sd).
Proof.
  rewrite !ProfilesFacts.run_query_ensure. unfold ensure_subjects. simpl. done.
Qed.

(** When the discovery finds subjects, any non-empty sequence of queries
    runs it exactly once and answers with what it found. *)
Theorem nonempty_discovery_memoized (qs : list query) (p : SimpleBatchProfile)
    (Hqs : qs <> []) (Hnot : subjects_found_truthy p = false) (Hne : discovered p <> []) :
  discovery_calls (run_queries qs p) = S (discovery_calls p) /\
  found (run_queries qs p) = discovered p.
Proof.
  destruct qs as [|q qs]; [done|].
  assert (Ht : subjects_found_truthy (ensure_subjects p) = true).
  { unfold ensure_subjects. rewrite Hnot. unfold subjects_found_truthy. simpl.
    unfold discovered in Hne. destruct (_get_subjects p _ _ _); done. }
  assert (Hr : run_queries (q :: qs) p = ensure_subjects p).
  { unfold run_queries. cbn [fold_left]. rewrite ProfilesFacts.run_query_ensure.
    pose proof (ProfilesFacts.nonempty_memo_reused qs _ Ht) as H.
    unfold run_queries in H. exact H. }
  rewrite Hr. unfold ensure_subjects. rewrite Hnot. done.
Qed.

Lemma nonempty_discovery_memoized_witness :
  discovery_calls (run_queries [QProfileSuitable; QGetSubjectsCount; QGetSubjects]
                     (new_profile (fun _ _ _ => ["s1"]))) = 1%nat /\
  found (run_queries [QProfileSuitable; QGetSubjectsCount; QGetSubjects]
           (new_profile (fun _ _ _ => ["s1"]))) = ["s1"].
Proof.
  apply (nonempty_discovery_memoized [QProfileSuitable; QGetSubjectsCount; QGetSubjects]
           (new_profile (fun _ _ _ => ["s1"]))); [discriminate|reflexivity|discriminate].
Defined.

Lemma bound_after_root df c : _root_dir (bound_after df c) = df.
Proof.
  unfold bound_after, get_subjects_count, profile_suitable. simpl.
  destruct (ProfilesFacts.ensure_config (ensure_subjects (set_root_dir df c))) as (_ & H1 & _).
  destruct (ProfilesFacts.ensure_config (set_root_dir df c)) as (_ & H2 & _).
  by rewrite H1, H2.
Qed.

Lemma bound_after_truthy df c :
  bound_suitable df c = true -> subjects_found_truthy (bound_after df c) = true.
Proof.
  intros Hs. pose proof (ProfilesFacts.bound_count_pos df c Hs) as Hc.
  unfold bound_count, bound_after, get_subjects_count in *. simpl in *.
  apply ensure_truthy_of_found. intros He. rewrite He in Hc. simpl in Hc. lia.
Qed.

(** [batch_profile_factory(None, data_folder)] raises (on [None.set_root_dir])
    exactly when no loaded profile is suitable for [data_folder];
    otherwise it returns one of the loaded profiles, bound to
    [data_folder], that found subjects there and keeps them memoized. *)
Theorem batch_profile_factory_auto (load : string -> option SimpleBatchProfile)
    (crawlers : list SimpleBatchProfile) (data_folder : string) :
  (batch_profile_factory load crawlers ProfileNone data_folder = None <->
   forall j c, crawlers !! j = Some c -> bound_suitable data_folder c = false) /\
  (forall p, batch_profile_factory load crawlers ProfileNone data_folder = Some p ->
   exists i c, crawlers !! i = Some c /\ bound_suitable data_folder c = true /\
     p = bound_after data_folder c /\ _root_dir p = data_folder /\
     subjects_found_truthy p = true).
Proof.
  unfold batch_profile_factory, get_best_batch_profile.
  destruct (ProfilesFacts.best_profile_loop_spec data_folder crawlers None 0)
    as [[Hr Hall]|(i & c & Hi & Hs & Hr & _ & _ & _)]; rewrite Hr.
  - split; [|discriminate]. split; [|done].
    intros _ j c Hj. destruct (bound_suitable data_folder c) eqn:Es; [|done].
    pose proof (Hall j c Hj Es). pose proof (ProfilesFacts.bound_count_pos data_folder c Es). lia.
  - split.
    + split; [discriminate|]. intros Hnone. by rewrite (Hnone i c Hi) in Hs.
    + intros p Hp. injection Hp as <-. rewrite set_root_dir_same by apply bound_after_root.
      exists i, c. split; [done|]. split; [done|]. split; [done|].
      split; [apply bound_after_root|by apply bound_after_truthy].
Qed.

End ProfilesMore.

Module CollectMore.
Import Collect.





















End CollectMore.
